(** * RPG helper: command resolution and dice evaluation

    A shallow embedding of [rpg_helper.py]: the [Stats] dictionary with its
    derived modifiers, the macro resolver [resolve_command], the dice parser
    and evaluator [roll], and the entry point [handle_roll].

    Conventions of the embedding.
    - Python [int] is [Z]; text is [string], one character per code point
      below 256.
    - A Python dictionary whose order is never observed is a [gmap]; the
      per-character macro table, whose rendering [str.format] can print, is
      an association list.
    - A call that may raise is a [result]: [Ok v] or [Raise e], where [e]
      names the Python exception class.
    - [randint] reads a fixed random source, a tape of raw draws. *)

From Stdlib Require Import ZArith Ascii String List Bool Lia DecimalString.
From stdpp Require Import base option list strings gmap.

Local Open Scope string_scope.
Local Open Scope Z_scope.

(** ** Exceptions *)

(** The exceptions the modelled code can raise, by class; [RuntimeError]
    carries its single argument and [KeyError] the missing key.
    [OutsideModel] is no exception of Python: it marks the template
    syntax whose rendering the model of [str.format] leaves out
    (conversions, format specifications, attributes and indices). *)
Inductive exn : Type :=
| RuntimeError (arg : string)
| KeyError (key : string)
| IndexError
| ValueError
| TypeError
| OverflowError
| OutsideModel.

Inductive result (A : Type) : Type :=
| Ok (a : A)
| Raise (e : exn).
Arguments Ok {A} a.
Arguments Raise {A} e.

Definition rbind {A B} (r : result A) (k : A -> result B) : result B :=
  match r with
  | Ok a => k a
  | Raise e => Raise e
  end.

Notation "'let!' x ':=' r 'in' k" := (rbind r (fun x => k))
  (at level 10, x pattern, r at level 100, k at level 200).

Definition lookup_or_raise {A} (o : option A) (key : string) : result A :=
  match o with
  | Some a => Ok a
  | None => Raise (KeyError key)
  end.

(** ** Text primitives *)

Module Text.

Definition nl : string := String "010"%char EmptyString.

Definition code (c : ascii) : nat := nat_of_ascii c.

Definition is_digit (c : ascii) : bool :=
  ((48 <=? code c) && (code c <=? 57))%nat.

(** [\s] of the [regex] module: the characters with the Unicode
    White_Space property. *)
Definition re_space (c : ascii) : bool :=
  (((9 <=? code c) && (code c <=? 13)) || (code c =? 32)
   || (code c =? 133) || (code c =? 160))%nat.

(** [str.isspace], used by [str.split] and [str.strip]: it also accepts
    the four information separators. *)
Definition py_space (c : ascii) : bool :=
  (re_space c || ((28 <=? code c) && (code c <=? 31)))%nat.

Definition is_empty (s : string) : bool :=
  match s with EmptyString => true | String _ _ => false end.

(** Every character of [s] satisfies [p]. *)
Fixpoint all (p : ascii -> bool) (s : string) : bool :=
  match s with
  | String c r => p c && all p r
  | EmptyString => true
  end.

(** [s] starts with a character satisfying [p]. *)
Definition starts_in (p : ascii -> bool) (s : string) : bool :=
  match s with
  | String c _ => p c
  | EmptyString => false
  end.

(** Longest prefix of characters satisfying [p], and what follows it: a
    greedy [p*] that is followed by something [p] rejects, or by the end. *)
Fixpoint span (p : ascii -> bool) (s : string) : string * string :=
  match s with
  | String c r =>
      if p c then let '(a, b) := span p r in (String c a, b)
      else (EmptyString, s)
  | EmptyString => (EmptyString, EmptyString)
  end.

Fixpoint lstrip (s : string) : string :=
  match s with
  | String c r => if py_space c then lstrip r else s
  | EmptyString => EmptyString
  end.

Fixpoint rstrip (s : string) : string :=
  match s with
  | String c r =>
      let r' := rstrip r in
      if py_space c && is_empty r' then EmptyString else String c r'
  | EmptyString => EmptyString
  end.

(** [s.strip()] *)
Definition strip (s : string) : string := rstrip (lstrip s).

(** [s.split()]: the maximal runs of characters that are not spaces.
    [cur] is the run being read. *)
Fixpoint split_from (cur : string) (s : string) : list string :=
  match s with
  | String c r =>
      if py_space c
      then (if is_empty cur then split_from EmptyString r
            else cur :: split_from EmptyString r)
      else split_from (cur ++ String c EmptyString) r
  | EmptyString => if is_empty cur then [] else [cur]
  end.

Definition split (s : string) : list string := split_from EmptyString s.

(** [sep.join(parts)] *)
Fixpoint join (sep : string) (parts : list string) : string :=
  match parts with
  | [] => EmptyString
  | [p] => p
  | p :: ps => p ++ sep ++ join sep ps
  end.

(** [re.sub] of every run of [\s] by nothing *)
Fixpoint remove_spaces (s : string) : string :=
  match s with
  | String c r => if re_space c then remove_spaces r else String c (remove_spaces r)
  | EmptyString => EmptyString
  end.

Fixpoint starts_with (p s : string) : bool :=
  match p, s with
  | EmptyString, _ => true
  | String a p', String b s' => Ascii.eqb a b && starts_with p' s'
  | String _ _, EmptyString => false
  end.

(** [p in s] for two strings *)
Fixpoint contains (p s : string) : bool :=
  starts_with p s ||
  match s with
  | String _ r => contains p r
  | EmptyString => false
  end.

(** [str(z)] for an [int]; past 4300 digits, the limit the interpreter
    sets by default, Python refuses to render it. *)
Definition str_of_int (z : Z) : string := NilZero.string_of_int (Z.to_int z).

Definition digit_value (c : ascii) : Z := Z.of_nat (code c) - 48.

(** Digits with single underscores between them, as [int] accepts. *)
Fixpoint digits_value (acc : Z) (after_digit : bool) (s : string) : option Z :=
  match s with
  | String c r =>
      if is_digit c then digits_value (10 * acc + digit_value c) true r
      else if Ascii.eqb c "_" && after_digit then digits_value acc false r
      else None
  | EmptyString => if after_digit then Some acc else None
  end.

(** The most digits [int] converts from a text: the limit the interpreter
    sets by default. *)
Definition max_str_digits : Z := 4300.

(** The digits of a numeral, its underscores not counted. *)
Fixpoint count_digits (s : string) : Z :=
  match s with
  | String c r => (if is_digit c then 1 else 0) + count_digits r
  | EmptyString => 0
  end.

(** [int(s)] for a string: spaces around, an optional sign, digits; a
    numeral of more digits than the limit is refused as a malformed one
    is. *)
Definition int_of_str (s : string) : result Z :=
  let body := strip s in
  let signed :=
    match body with
    | String "+" r => (1, r)
    | String "-" r => (-1, r)
    | _ => (1, body)
    end in
  match digits_value 0 false (snd signed) with
  | Some n =>
      if max_str_digits <? count_digits (snd signed) then Raise ValueError
      else Ok (fst signed * n)
  | None => Raise ValueError
  end.

(** [repr] of a list of integers: [[3, 5]] *)
Definition repr_ints (l : list Z) : string :=
  "[" ++ join ", " (map str_of_int l) ++ "]".

End Text.

(** ** Integer quotients through floating point

    The program divides with [/], which on two [int]s yields the double
    nearest to the exact quotient (ties to even), and converts back with
    [int], which truncates toward zero. *)

Module Float.

(** The double nearest to a natural number [n], as an integer: [n] keeps
    its 53 leading bits, rounded to nearest, ties to even. *)
Definition round53 (n : Z) : Z :=
  let bits := Z.log2 n + 1 in
  if bits <=? 53 then n
  else
    let s := bits - 53 in
    let q := Z.shiftr n s in
    let r := n mod 2 ^ s in
    let half := 2 ^ (s - 1) in
    let up := (half <? r) || ((r =? half) && Z.odd q) in
    Z.shiftl (if up then q + 1 else q) s.

(** [int(a / d)] for integers [a] and [d], where [d] is a positive power
    of two (the program divides by 2 and by 4 only). Scaling by a power
    of two is exact, so the quotient is the rounded numerator divided by
    [d]; a quotient of magnitude [2^1024] or more raises. *)
Definition int_truediv (a d : Z) : result Z :=
  let m := round53 (Z.abs a) in
  if 2 ^ 1024 * d <=? m then Raise OverflowError
  else Ok (Z.sgn a * (m / d)).

End Float.

(** ** The Stats dictionary *)

(** Values a character record holds: integers (ability scores, level, hit
    dice), text (name, derived modifiers), the list of proficient rolls and
    the table of personal macros. *)
Inductive value : Type :=
| VInt (z : Z)
| VStr (s : string)
| VList (l : list string)
| VDict (d : list (string * string)).

Module Stats.

Definition mod_keys : list string :=
  ["strmod"; "dexmod"; "conmod"; "intmod"; "wismod"; "chamod"].

Definition ability_keys : list string :=
  ["str"; "dex"; "con"; "int"; "wis"; "cha"].

(** [mod = int(value/2) - 5]; dividing anything but a number raises. *)
Definition modifier (v : value) : result Z :=
  match v with
  | VInt v => let! q := Float.int_truediv v 2 in Ok (q - 5)
  | _ => Raise TypeError
  end.

(** [str(mod) if mod < 0 else f"+{mod}"] *)
Definition render_modifier (m : Z) : string :=
  if m <? 0 then Text.str_of_int m else "+" ++ Text.str_of_int m.

Definition get_modifier (v : value) : result string :=
  let! m := modifier v in Ok (render_modifier m).

(** [self[key] = value] *)
Definition setitem (self : gmap string value) (key : string) (v : value)
  : result (gmap string value) :=
  if bool_decide (key ∈ mod_keys) then Ok self
  else if bool_decide (key ∈ ability_keys) then
    let! m := get_modifier v in
    Ok (<[key := v]> (<[key ++ "mod" := VStr m]> self))
  else Ok (<[key := v]> self).

(** The dictionary after [self[key] = value], whether the statement
    raised or not: [get_modifier] is evaluated before anything is
    stored, so a write that raises stores nothing. *)
Definition after_setitem (self : gmap string value) (kv : string * value)
  : gmap string value :=
  match setitem self (fst kv) (snd kv) with
  | Ok self' => self'
  | Raise _ => self
  end.

(** The loop of [__init__] over the items of [from_dict]. *)
Fixpoint setitems (self : gmap string value) (items : list (string * value))
  : result (gmap string value) :=
  match items with
  | [] => Ok self
  | (key, v) :: rest =>
      let! self' := setitem self key v in setitems self' rest
  end.

(** [Stats(from_dict)] *)
Definition init (from_dict : list (string * value)) : result (gmap string value) :=
  setitems ∅ from_dict.

End Stats.

(** ** The engine state *)

Record RPGHelper : Type := Helper {
  macros : gmap string string;
  user_to_characters : gmap string (list string);
  user_default : gmap string string;
  characters : gmap string (gmap string value);
  game : option string
}.

(** ** Commands

    A command runs against the helper object and a fixed random source, a
    tape of raw draws read from a cursor. It returns a value or raises, and
    leaves the world it stopped in: what it did before raising stays. *)

Definition tape : Type := nat -> nat.

Record world : Type := World {
  engine : RPGHelper;
  cursor : nat
}.

Definition action (A : Type) : Type := tape -> world -> result A * world.

Definition pure {A} (a : A) : action A := fun _ w => (Ok a, w).

Definition lift {A} (r : result A) : action A := fun _ w => (r, w).

Definition bind {A B} (m : action A) (k : A -> action B) : action B :=
  fun t w =>
    match m t w with
    | (Ok a, w') => k a t w'
    | (Raise e, w') => (Raise e, w')
    end.

Notation "'do!' x ':=' m 'in' k" := (bind m (fun x => k))
  (at level 10, x pattern, m at level 100, k at level 200).

(** A call of a method that only reads the object it is called on. *)
Definition reading {A} (method : RPGHelper -> result A) : action A :=
  fun _ w => (method (engine w), w).

(** [try: m  except RuntimeError as err: handler(err.args)] *)
Definition except_RuntimeError {A} (m : action A) (handler : string -> action A)
  : action A :=
  fun t w =>
    match m t w with
    | (Raise (RuntimeError arg), w') => handler arg t w'
    | other => other
    end.

(** [random.randint(a, b)]: an integer of [a..b]; an empty range raises. *)
Definition randint (a b : Z) : action Z :=
  fun t w =>
    if b <? a then (Raise ValueError, w)
    else (Ok (a + Z.of_nat (t (cursor w)) mod (b - a + 1)),
          World (engine w) (S (cursor w))).

(** [sum(l)] *)
Definition sum (l : list Z) : Z := foldr Z.add 0 l.

(** ** The dice expression parser *)

(** What [roll] reads off the match object: groups 1, 2 and 4, and every
    capture of group 3. *)
Record roll_match : Type := RollMatch {
  m_number : string;
  m_sides : string;
  m_constants : list string;
  m_adv : option string
}.

Module DiceRegex.
Import Text.

Definition is_sign (c : ascii) : bool := Ascii.eqb c "+" || Ascii.eqb c "-".

(** The class [[A|D]]: the bar is a member of it. *)
Definition is_flag (c : ascii) : bool :=
  Ascii.eqb c "A" || Ascii.eqb c "|" || Ascii.eqb c "D".

(** One round of [([+\-]\s*[0-9]+)]: its capture and what follows. *)
Definition constant_term (s : string) : option (string * string) :=
  match s with
  | String c r =>
      if is_sign c then
        let '(ws, r1) := span re_space r in
        let '(ds, r2) := span is_digit r1 in
        if is_empty ds then None else Some (String c (ws ++ ds), r2)
      else None
  | EmptyString => None
  end.

(** The greedy star over [constant_term]: every capture in order. Each
    round consumes text, so the length of the input is fuel enough. *)
Fixpoint constant_terms (fuel : nat) (s : string) : list string * string :=
  match fuel with
  | O => ([], s)
  | S fuel' =>
      match constant_term s with
      | Some (c, r) => let '(cs, r') := constant_terms fuel' r in (c :: cs, r')
      | None => ([], s)
      end
  end.

(** [(\s+[A|D])?] *)
Definition flag_group (s : string) : option string :=
  let '(ws, r) := span re_space s in
  match r with
  | String c _ =>
      if negb (is_empty ws) && is_flag c then Some (ws ++ String c EmptyString) else None
  | EmptyString => None
  end.

(** [re.match] of the pattern of [roll] on [s]: group 1 is a greedy run
    of digits, then the letter d, group 2 a non-empty run of digits, then
    spaces, the rounds of group 3 and the optional group 4. The match
    starts at the first character and may stop anywhere. Every part
    after the sides may match nothing, so the first greedy attempt
    succeeds and no part gives text back. *)
Definition roll_regex (s : string) : option roll_match :=
  let '(number, r1) := span is_digit s in
  match r1 with
  | String "d"%char r2 =>
      let '(sides, r3) := span is_digit r2 in
      if is_empty sides then None
      else
        let '(_, r4) := span re_space r3 in
        let '(constants, r5) := constant_terms (String.length r4) r4 in
        Some (RollMatch number sides constants (flag_group r5))
  | _ => None
  end.

End DiceRegex.

(** ** The dice evaluator *)

Record outcome : Type := Outcome {
  o_rolls : list Z;
  o_rerolls : list Z;
  o_true_rolls : list Z;
  o_total : Z;
  o_adv : option string
}.

Module Dice.

(** [[randint(1, int(sides)) for i in range(n)]] *)
Fixpoint draw (n : nat) (sides : string) : action (list Z) :=
  match n with
  | O => pure []
  | S n' =>
      do! s := lift (Text.int_of_str sides) in
      do! x := randint 1 s in
      do! xs := draw n' sides in
      pure (x :: xs)
  end.

(** [int(number) if number else 1] *)
Definition count (number : string) : result Z :=
  if Text.is_empty number then Ok 1 else Text.int_of_str number.

(** The choice between the two sets. *)
Definition choose (adv : option string) (rolls rerolls : list Z) : list Z :=
  if bool_decide (adv = Some "A") && (sum rolls <? sum rerolls) then rerolls
  else if bool_decide (adv = Some "D") && (sum rerolls <? sum rolls) then rerolls
  else rolls.

(** The comprehension over [constants]: each non-empty capture, its
    spaces removed, converted by [int]. *)
Fixpoint constant_values (constants : list string) : result (list Z) :=
  match constants with
  | [] => Ok []
  | c :: cs =>
      if Text.is_empty c then constant_values cs
      else
        let! v := Text.int_of_str (Text.remove_spaces c) in
        let! vs := constant_values cs in
        Ok (v :: vs)
  end.

(** The body of [roll] from the groups of the match to the total. *)
Definition evaluate (parse : roll_match) : action outcome :=
  do! number := lift (count (m_number parse)) in
  do! rolls := draw (Z.to_nat number) (m_sides parse) in
  do! rerolls := draw (Z.to_nat number) (m_sides parse) in
  let adv := Text.strip <$> m_adv parse in
  let true_rolls := choose adv rolls rerolls in
  do! values := lift (constant_values (m_constants parse)) in
  pure (Outcome rolls rerolls true_rolls (sum (true_rolls ++ values)) adv).

(** The two response formats. *)
Definition respond (user character roll_command : string) (o : outcome) : string :=
  match o_adv o with
  | Some adv =>
      let adv_text := if String.eqb adv "A" then "ADV" else "DISADV" in
      "<@" ++ user ++ "> rolled `" ++ roll_command ++ "` for " ++ character
      ++ Text.nl ++ "```"
      ++ Text.repr_ints (o_rolls o) ++ ", " ++ Text.repr_ints (o_rerolls o)
      ++ Text.nl ++ "Total (" ++ adv_text ++ "): " ++ Text.str_of_int (o_total o)
      ++ "```"
  | None =>
      "<@" ++ user ++ "> rolled `" ++ roll_command ++ "` for " ++ character
      ++ Text.nl ++ "```"
      ++ Text.repr_ints (o_rolls o)
      ++ Text.nl ++ "Total: " ++ Text.str_of_int (o_total o)
      ++ "```"
  end.

End Dice.

(** ** Template substitution *)

Module Format.
Import Text.

Definition quote1 : ascii := "'"%char.
Definition quote2 : ascii := "034"%char.
Definition backslash : ascii := "\"%char.

Definition hex_digit (n : nat) : ascii :=
  match String.get n "0123456789abcdef" with
  | Some c => c
  | None => "0"%char
  end.

Definition printable (c : ascii) : bool :=
  (((32 <=? code c) && (code c <=? 126))
   || ((161 <=? code c) && negb (code c =? 173)))%nat.

(** One character inside [repr] of a string delimited by [quote]. *)
Definition repr_char (quote c : ascii) : string :=
  if Ascii.eqb c quote || Ascii.eqb c backslash then String backslash (String c EmptyString)
  else if (code c =? 9)%nat then "\t"
  else if (code c =? 10)%nat then "\n"
  else if (code c =? 13)%nat then "\r"
  else if printable c then String c EmptyString
  else String backslash
         (String "x" (String (hex_digit (code c / 16)) (String (hex_digit (code c mod 16)) EmptyString))).

Fixpoint has_char (c : ascii) (s : string) : bool :=
  match s with
  | String a r => Ascii.eqb a c || has_char c r
  | EmptyString => false
  end.

Fixpoint repr_chars (quote : ascii) (s : string) : string :=
  match s with
  | String c r => repr_char quote c ++ repr_chars quote r
  | EmptyString => EmptyString
  end.

(** [repr(s)] for a string *)
Definition repr_str (s : string) : string :=
  let quote := if has_char quote1 s && negb (has_char quote2 s) then quote2 else quote1 in
  String quote (repr_chars quote s ++ String quote EmptyString).

(** [format(v, empty)], that is [str(v)] *)
Definition str_of_value (v : value) : string :=
  match v with
  | VInt z => str_of_int z
  | VStr s => s
  | VList l => "[" ++ join ", " (map repr_str l) ++ "]"
  | VDict d =>
      "{" ++ join ", " (map (fun kv => repr_str (fst kv) ++ ": " ++ repr_str (snd kv)) d) ++ "}"
  end.

Definition is_accessor (c : ascii) : bool := Ascii.eqb c "." || Ascii.eqb c "[".

(** The object a replacement field [name] stands for, rendered. The call
    passes no positional argument, so an empty or numeric name finds
    nothing; a name followed by an attribute or an index is looked up
    and its rendering is left out of the model. *)
Definition field (kwargs : gmap string value) (name : string) : result string :=
  let '(first, rest) := span (fun c => negb (is_accessor c)) name in
  if is_empty first then Raise IndexError
  else if all is_digit first then
    match digits_value 0 false first with
    | Some n => if n <=? 2 ^ 63 - 1 then Raise IndexError else Raise ValueError
    | None => Raise ValueError
    end
  else
    let! v := lookup_or_raise (kwargs !! first) first in
    if is_empty rest then Ok (str_of_value v) else Raise OutsideModel.

(** Where the scan of the template is: in literal text, or inside a
    replacement field whose name so far is [name], possibly between
    brackets. *)
Inductive scan : Type :=
| InText
| InField (name : string) (bracket : bool).

Definition emit (c : ascii) (r : result string) : result string :=
  let! out := r in Ok (String c out).

(** [template.format( **kwargs )], left to right. A conversion or a
    format specification in a field is left out of the model. *)
Fixpoint format_from (kwargs : gmap string value) (st : scan) (template : string)
  : result string :=
  match st, template with
  | InText, EmptyString => Ok EmptyString
  | InText, String c r =>
      if Ascii.eqb c "{" then
        match r with
        | EmptyString => Raise ValueError
        | String c' r' =>
            if Ascii.eqb c' "{" then emit "{" (format_from kwargs InText r')
            else format_from kwargs (InField EmptyString false) r
        end
      else if Ascii.eqb c "}" then
        match r with
        | EmptyString => Raise ValueError
        | String c' r' =>
            if Ascii.eqb c' "}" then emit "}" (format_from kwargs InText r')
            else Raise ValueError
        end
      else emit c (format_from kwargs InText r)
  | InField _ _, EmptyString => Raise ValueError
  | InField name bracket, String c r =>
      let name' := name ++ String c EmptyString in
      if bracket then format_from kwargs (InField name' (negb (Ascii.eqb c "]"))) r
      else if Ascii.eqb c "{" then Raise ValueError
      else if Ascii.eqb c "[" then format_from kwargs (InField name' true) r
      else if Ascii.eqb c "}" then
        let! piece := field kwargs name in
        let! out := format_from kwargs InText r in
        Ok (piece ++ out)
      else if Ascii.eqb c ":" || Ascii.eqb c "!" then Raise OutsideModel
      else format_from kwargs (InField name' false) r
  end.

Definition format (template : string) (kwargs : gmap string value) : result string :=
  format_from kwargs InText template.

End Format.

(** ** The macro resolver *)

Module Resolver.
Import Text.

(** [$]: the end of the text, or just before a newline that ends it. *)
Definition at_end (s : string) : bool :=
  is_empty s || String.eqb s nl.

(** The optional flag group followed by [$], at [s]: the capture of the
    group if the rest of the pattern matches here. *)
Definition flag_at_end (s : string) : option (option string) :=
  let '(ws, r) := span re_space s in
  match r with
  | String c r' =>
      if negb (is_empty ws) && DiceRegex.is_flag c && at_end r'
      then Some (Some (ws ++ String c EmptyString))
      else if at_end s then Some None else None
  | EmptyString => if at_end s then Some None else None
  end.

(** [re.match] of the pattern of [resolve_command]: a lazy group of
    characters other than newline, then the optional flag group, then the
    end. The first group is the shortest prefix the rest agrees with. *)
Fixpoint resolve_regex (s : string) : option (string * option string) :=
  match flag_at_end s with
  | Some adv => Some (EmptyString, adv)
  | None =>
      match s with
      | String c r =>
          if Ascii.eqb c "010" then None
          else
            match resolve_regex r with
            | Some (command, adv) => Some (String c command, adv)
            | None => None
            end
      | EmptyString => None
      end
  end.

(** [x in v] *)
Definition value_contains (x : string) (v : value) : result bool :=
  match v with
  | VInt _ => Raise TypeError
  | VStr s => Ok (contains x s)
  | VList l => Ok (bool_decide (x ∈ l))
  | VDict d => Ok (bool_decide (x ∈ d.*1))
  end.

(** [v[x]] for a string [x] *)
Definition value_item (v : value) (x : string) : result string :=
  match v with
  | VDict d => lookup_or_raise (snd <$> find (fun kv => String.eqb (fst kv) x) d) x
  | _ => Raise TypeError
  end.

Definition synthetic_keys : list string :=
  ["is_proficient"; "proficiency"; "adv_or_disadv"].

(** [template.format( **stats, is_proficient=..., proficiency=prof,
    adv_or_disadv=...)]: the keyword values are computed first, then a
    key of [stats] that repeats a keyword is refused. *)
Definition expand (template : string) (stats : gmap string value)
    (command prof : string) (adv : option string) : result string :=
  let! rolls := lookup_or_raise (stats !! "proficient_rolls") "proficient_rolls" in
  let! proficient := value_contains command rolls in
  let is_proficient := if proficient then prof else EmptyString in
  let adv_or_disadv := default EmptyString adv in
  if bool_decide (Exists (fun k => is_Some (stats !! k)) synthetic_keys)
  then Raise TypeError
  else
    Format.format template
      (<["adv_or_disadv" := VStr adv_or_disadv]>
         (<["proficiency" := VStr prof]>
            (<["is_proficient" := VStr is_proficient]> stats))).

End Resolver.

(** [RPGHelper.get_proficiency_by_level] *)
Definition get_proficiency_by_level (level : value) : result string :=
  match level with
  | VInt l =>
      let! q := Float.int_truediv (l - 1) 4 in
      Ok ("+" ++ Text.str_of_int (q + 2))
  | _ => Raise TypeError
  end.

(** The first half of [resolve_command], for a user who owns the
    characters [owned]: the character to roll for and the text to resolve.
    A first word naming a character of the user selects it and leaves the
    other words, joined by single spaces. *)
Definition select_character (self : RPGHelper) (user : string) (owned : list string)
    (roll_command : string) : result (string * string) :=
  let userkey := user in
  let parts := Text.split roll_command in
  let! default_character := lookup_or_raise (user_default self !! userkey) userkey in
  let! first := match parts with p :: _ => Ok p | [] => Raise IndexError end in
  let name := Text.strip first in
  let! specific_character :=
    if bool_decide (is_Some (characters self !! name)) then
      if bool_decide (name ∈ owned) then Ok true
      else Raise (RuntimeError ("<@" ++ user ++ "> cannot roll for " ++ name))
    else Ok false in
  if specific_character then Ok (name, Text.join " " (tail parts))
  else Ok (default_character, roll_command).

(** The second half: the macro named by [roll_command], expanded with the
    stats of [character]; the global table is asked first. *)
Definition resolve_macro (self : RPGHelper) (character roll_command : string)
  : result (string * string) :=
  let! stats := lookup_or_raise (characters self !! character) character in
  let! level := lookup_or_raise (stats !! "level") "level" in
  let! prof := get_proficiency_by_level level in
  match Resolver.resolve_regex roll_command with
  | None => Ok (character, roll_command)
  | Some (command, adv_or_disadv) =>
      match macros self !! command with
      | Some template =>
          let! text := Resolver.expand template stats command prof adv_or_disadv in
          Ok (character, text)
      | None =>
          match stats !! "macros" with
          | Some table =>
              let! known := Resolver.value_contains command table in
              if known then
                let! template := Resolver.value_item table command in
                let! text := Resolver.expand template stats command prof adv_or_disadv in
                Ok (character, text)
              else Ok (character, roll_command)
          | None => Ok (character, roll_command)
          end
      end
  end.

(** [RPGHelper.resolve_command], a method that only reads [self]. *)
Definition resolve_command (self : RPGHelper) (user roll_command : string)
  : result (string * string) :=
  match user_to_characters self !! user with
  | None => Ok ("UNKNOWN", roll_command)
  | Some owned =>
      let! selected := select_character self user owned roll_command in
      resolve_macro self (fst selected) (snd selected)
  end.

(** [RPGHelper.roll] *)
Definition roll (user character roll_command : string) : action string :=
  match DiceRegex.roll_regex (Text.strip roll_command) with
  | None => pure ("<@" ++ user ++ "> Unknown command: " ++ roll_command)
  | Some parse =>
      do! o := Dice.evaluate parse in
      pure (Dice.respond user character roll_command o)
  end.

(** [RPGHelper.handle_roll] *)
Definition handle_roll (user roll_command : string) : action string :=
  except_RuntimeError
    (do! resolved := reading (fun self => resolve_command self user roll_command) in
     roll user (fst resolved) (snd resolved))
    (fun arg => pure arg).

(** ** Vocabulary of the properties *)

(** Every ability either is absent together with its modifier entry, or
    holds a value whose modifier is the text stored under the modifier
    key. *)
Definition in_sync (s : gmap string value) : Prop :=
  forall a, a ∈ Stats.ability_keys ->
    (s !! a = None /\ s !! (a ++ "mod") = None)
    \/ (exists v m, s !! a = Some v
                    /\ Stats.get_modifier v = Ok m
                    /\ s !! (a ++ "mod") = Some (VStr m)).

(** A signed constant as the grammar writes it: a sign, spaces, digits. *)
Definition constant_text (c : string) : Prop :=
  exists sg ws ds,
    c = String sg (ws ++ ds)
    /\ DiceRegex.is_sign sg = true
    /\ Text.all Text.re_space ws = true
    /\ Text.all Text.is_digit ds = true
    /\ ds <> EmptyString.

(** A numeral, or a constant, of no more digits than [int] converts. *)
Definition within_limit (s : string) : Prop :=
  Text.count_digits s <= Text.max_str_digits.

(** The concatenation of the constants of an expression. *)
Definition concat (cs : list string) : string := foldr String.append EmptyString cs.

(** Example data: a character as [add_character] builds it. *)
Definition example_stats : gmap string value :=
  foldl Stats.after_setitem ∅
    [("name", VStr "bob"); ("proficient_rolls", VList ["atk"]); ("level", VInt 5);
     ("macros", VDict [("atk", "d4"); ("own", "d6{dexmod}")]); ("hitdice", VInt 8);
     ("str", VInt 15); ("dex", VInt 8); ("con", VInt 12);
     ("int", VInt 10); ("wis", VInt 11); ("cha", VInt 9)].

(** A game with one user, one character, and a macro named in both
    tables. *)
Definition example_helper : RPGHelper :=
  Helper
    (<["atk" := "d20{strmod}{is_proficient}{adv_or_disadv}"]> (<["bad" := "d20{foo}"]> ∅))
    (<["u1" := ["bob"]]> ∅)
    (<["u1" := "bob"]> ∅)
    (<["bob" := example_stats]> ∅)
    (Some "game").

Definition example_tape : tape := fun n => (7 * n)%nat.

(** The text names no macro of the game or of the character. *)
Definition names_no_macro (self : RPGHelper) (stats : gmap string value)
    (text : string) : Prop :=
  match Resolver.resolve_regex text with
  | None => True
  | Some (command, _) =>
      macros self !! command = None
      /\ match stats !! "macros" with
         | None => True
         | Some table => Resolver.value_contains command table = Ok false
         end
  end.

(** Literal text of a template: no brace. *)
Definition plain_char (c : ascii) : bool :=
  negb (Ascii.eqb c "{" || Ascii.eqb c "}").

(** A character of a plain placeholder name. *)
Definition name_char (c : ascii) : bool :=
  negb (Ascii.eqb c "{" || Ascii.eqb c "}" || Ascii.eqb c "[" || Ascii.eqb c "]"
        || Ascii.eqb c "." || Ascii.eqb c ":" || Ascii.eqb c "!").

(** A placeholder that names a keyword: not empty, not a number. *)
Definition placeholder (name : string) : Prop :=
  name <> EmptyString
  /\ Text.all name_char name = true
  /\ Text.all Text.is_digit name = false.

(** A command that leaves the helper object as it found it. *)
Definition keeps_engine {A} (m : action A) : Prop :=
  forall t w, engine (snd (m t w)) = engine w.

(** A command whose only exception is ValueError. *)
Definition raises_only_ValueError {A} (m : action A) : Prop :=
  forall t w e w', m t w = (Raise e, w') -> e = ValueError.

(** ** Vocabulary of the further properties *)

(** The text starts as a dice expression does: digits, the letter d, a
    digit. *)
Definition dice_prefix (s : string) : bool :=
  match snd (Text.span Text.is_digit s) with
  | String "d"%char r => Text.starts_in Text.is_digit r
  | _ => false
  end.

(** The last character of [s] satisfies [p]. *)
Fixpoint ends_in (p : ascii -> bool) (s : string) : bool :=
  match s with
  | EmptyString => false
  | String c EmptyString => p c
  | String _ r => ends_in p r
  end.

Definition not_newline (c : ascii) : bool := negb (Ascii.eqb c "010").

(** What a placeholder of a macro stands for: the three keywords of the
    call, or the entry of the stats under that name, rendered. *)
Definition context_value (stats : gmap string value) (is_proficient prof : string)
    (adv : option string) (name : string) : option string :=
  if String.eqb name "adv_or_disadv" then Some (default EmptyString adv)
  else if String.eqb name "proficiency" then Some prof
  else if String.eqb name "is_proficient" then Some is_proficient
  else Format.str_of_value <$> stats !! name.

(** * Properties *)

(** ** Quotients *)

Lemma round53_exact (n : Z) : 0 <= n < 2 ^ 53 -> Float.round53 n = n.
Proof.
  intros [Hlo Hhi]. unfold Float.round53.
  destruct (Z.leb_spec (Z.log2 n + 1) 53) as [_ | Hbits]; [reflexivity |].
  exfalso. destruct (Z.eq_dec n 0) as [-> | Hn].
  - simpl in Hbits. lia.
  - assert (Z.log2 n < 53) by (apply Z.log2_lt_pow2; lia). lia.
Qed.

Lemma int_truediv_exact (a d : Z) :
  Z.abs a < 2 ^ 53 -> 0 < d -> Float.int_truediv a d = Ok (a ÷ d).
Proof.
  intros Ha Hd. unfold Float.int_truediv.
  rewrite round53_exact by lia.
  destruct (Z.leb_spec (2 ^ 1024 * d) (Z.abs a)) as [Hbig | _].
  - exfalso.
    assert (2 ^ 53 <= 2 ^ 1024) by (apply Z.pow_le_mono_r; lia).
    nia.
  - f_equal. rewrite Z.quot_div by lia.
    rewrite (Z.sgn_pos d) by lia. rewrite (Z.abs_eq d) by lia. lia.
Qed.

Lemma quot_floor (a d : Z) : 0 <= a -> 0 < d -> a ÷ d = a / d.
Proof. intros. apply Z.quot_div_nonneg; lia. Qed.

(** ** Rendering of integers *)

Lemma str_of_int_negative (m : Z) :
  m < 0 -> exists r, Text.str_of_int m = String "-" r.
Proof.
  intros Hm. destruct m as [| p | p]; try lia.
  eexists. reflexivity.
Qed.

Lemma render_modifier_plus (m : Z) :
  Text.starts_with "+" (Stats.render_modifier m) = true <-> 0 <= m.
Proof.
  unfold Stats.render_modifier.
  destruct (Z.ltb_spec m 0) as [Hneg | Hpos].
  - destruct (str_of_int_negative m Hneg) as [r ->]. simpl. split; [discriminate | lia].
  - simpl. split; [lia | reflexivity].
Qed.

(** ** Ability modifiers and proficiency *)

(** C2, as the code has it. For every integer ability value [v] of
    magnitude below [2^53] the modifier is the quotient of [v] by 2
    truncated toward zero, minus 5; for [v >= 0] this is [floor(v/2) - 5].
    The rendered text starts with a plus sign exactly when the modifier
    is not negative, and a negative modifier is rendered as the plain
    negative number. *)
Theorem get_modifier_truncates (v : Z) :
  Z.abs v < 2 ^ 53 ->
  Stats.modifier (VInt v) = Ok (v ÷ 2 - 5)
  /\ (0 <= v -> v ÷ 2 - 5 = v / 2 - 5)
  /\ Stats.get_modifier (VInt v) = Ok (Stats.render_modifier (v ÷ 2 - 5))
  /\ (Text.starts_with "+" (Stats.render_modifier (v ÷ 2 - 5)) = true
      <-> 0 <= v ÷ 2 - 5)
  /\ (v ÷ 2 - 5 < 0 ->
      Stats.render_modifier (v ÷ 2 - 5) = Text.str_of_int (v ÷ 2 - 5)).
Proof.
  intros Hv.
  assert (Hmod : Stats.modifier (VInt v) = Ok (v ÷ 2 - 5)).
  { unfold Stats.modifier. rewrite int_truediv_exact by lia. reflexivity. }
  split; [exact Hmod |].
  split; [intros; rewrite quot_floor by lia; reflexivity |].
  split; [unfold Stats.get_modifier; rewrite Hmod; reflexivity |].
  split; [apply render_modifier_plus |].
  intros Hneg. unfold Stats.render_modifier.
  destruct (Z.ltb_spec (v ÷ 2 - 5) 0); [reflexivity | lia].
Qed.

Lemma get_modifier_truncates_witness :
  Stats.modifier (VInt (-3)) = Ok (-6)
  /\ Stats.modifier (VInt 15) = Ok 2
  /\ Stats.get_modifier (VInt 15) = Ok "+2"
  /\ Stats.get_modifier (VInt (-3)) = Ok "-6".
Proof.
  assert (Hneg : Z.abs (-3) < 2 ^ 53) by (vm_compute; reflexivity).
  assert (Hpos : Z.abs 15 < 2 ^ 53) by (vm_compute; reflexivity).
  destruct (get_modifier_truncates (-3) Hneg) as (H1 & _ & H2 & _).
  destruct (get_modifier_truncates 15 Hpos) as (H3 & _ & H4 & _).
  repeat split; assumption.
Defined.

(** C2 as stated fails: at [v = -1] the code yields [-5], and
    [floor(-1/2) - 5] is [-6]. *)
Lemma get_modifier_not_floor :
  Stats.modifier (VInt (-1)) = Ok (-5)
  /\ Stats.modifier (VInt (-1)) <> Ok ((-1) / 2 - 5)
  /\ Stats.get_modifier (VInt (-1)) = Ok "-5".
Proof. repeat split; [vm_compute; discriminate]. Qed.

(** C8, as the code has it. For every integer level from 1 to [2^53] the
    proficiency bonus is [floor((level - 1) / 4) + 2] rendered after a plus
    sign; it is +2 at level 1, +3 at level 5 and +4 at level 9. *)
Theorem proficiency_by_level (level : Z) :
  1 <= level <= 2 ^ 53 ->
  get_proficiency_by_level (VInt level)
  = Ok ("+" ++ Text.str_of_int ((level - 1) / 4 + 2))
  /\ get_proficiency_by_level (VInt 1) = Ok "+2"
  /\ get_proficiency_by_level (VInt 5) = Ok "+3"
  /\ get_proficiency_by_level (VInt 9) = Ok "+4".
Proof.
  intros Hlevel. split; [| repeat split].
  unfold get_proficiency_by_level.
  rewrite int_truediv_exact by lia.
  rewrite quot_floor by lia. reflexivity.
Qed.

Lemma proficiency_by_level_witness :
  get_proficiency_by_level (VInt 17) = Ok "+6".
Proof.
  assert (H : 1 <= 17 <= 2 ^ 53) by (split; vm_compute; discriminate).
  exact (proj1 (proficiency_by_level 17 H)).
Defined.

(** C8 as stated fails above [2^53]: at level [2^53 + 4] the quotient is
    rounded up by the division, one more than the floor. *)
Lemma proficiency_rounds_above_2_53 :
  get_proficiency_by_level (VInt 9007199254740996) = Ok "+2251799813685251"
  /\ get_proficiency_by_level (VInt 9007199254740996)
     <> Ok ("+" ++ Text.str_of_int ((9007199254740996 - 1) / 4 + 2)).
Proof. split; [vm_compute; reflexivity | vm_compute; discriminate]. Qed.

(** ** The Stats invariant *)

Lemma ability_cases (a : string) :
  a ∈ Stats.ability_keys ->
  a = "str" \/ a = "dex" \/ a = "con" \/ a = "int" \/ a = "wis" \/ a = "cha".
Proof.
  intros Hin. apply list_elem_of_In in Hin. simpl in Hin.
  destruct Hin as [<- | [<- | [<- | [<- | [<- | [<- | []]]]]]]; auto 10.
Qed.

Lemma mod_key_of_ability (a : string) :
  a ∈ Stats.ability_keys -> a ++ "mod" ∈ Stats.mod_keys.
Proof.
  intros Ha. apply ability_cases in Ha.
  apply list_elem_of_In.
  destruct Ha as [-> | [-> | [-> | [-> | [-> | ->]]]]]; vm_compute; auto 10.
Qed.

Lemma ability_not_mod_key (a : string) :
  a ∈ Stats.ability_keys -> a ∉ Stats.mod_keys.
Proof.
  intros Ha. apply ability_cases in Ha.
  intros Hin. apply list_elem_of_In in Hin. simpl in Hin.
  destruct Ha as [-> | [-> | [-> | [-> | [-> | ->]]]]];
    repeat (destruct Hin as [Hin | Hin]; [discriminate Hin |]); exact Hin.
Qed.

Lemma mod_key_inj (a b : string) :
  a ∈ Stats.ability_keys -> b ∈ Stats.ability_keys ->
  a ++ "mod" = b ++ "mod" -> a = b.
Proof.
  intros Ha Hb. apply ability_cases in Ha. apply ability_cases in Hb.
  destruct Ha as [-> | [-> | [-> | [-> | [-> | ->]]]]];
    destruct Hb as [-> | [-> | [-> | [-> | [-> | ->]]]]];
    intros Heq; first [reflexivity | discriminate Heq].
Qed.

Lemma in_sync_empty : in_sync ∅.
Proof. intros a _. left. split; apply lookup_empty. Qed.

Lemma setitem_in_sync (s s' : gmap string value) (key : string) (v : value) :
  in_sync s -> Stats.setitem s key v = Ok s' -> in_sync s'.
Proof.
  intros Hs Hset. unfold Stats.setitem in Hset.
  case_bool_decide as Hmod; [by injection Hset as <- |].
  case_bool_decide as Hab.
  - destruct (Stats.get_modifier v) as [m |] eqn:Hm; simpl in Hset; [| discriminate].
    injection Hset as <-. intros a Ha.
    destruct (decide (a = key)) as [-> | Hne].
    + right. exists v, m. split; [apply lookup_insert_eq |]. split; [exact Hm |].
      rewrite lookup_insert_ne.
      * apply lookup_insert_eq.
      * intros Heq. apply Hmod. rewrite Heq. by apply mod_key_of_ability.
    + assert (a ++ "mod" <> key ++ "mod") by (intros Heq; by apply Hne, mod_key_inj).
      assert (key <> a ++ "mod").
      { intros ->. by apply Hmod, mod_key_of_ability. }
      assert (key ++ "mod" <> a).
      { intros Heq. apply (ability_not_mod_key a Ha). rewrite <- Heq.
        by apply mod_key_of_ability. }
      rewrite (lookup_insert_ne _ key a) by congruence.
      rewrite (lookup_insert_ne _ (key ++ "mod") a) by congruence.
      rewrite (lookup_insert_ne _ key (a ++ "mod")) by congruence.
      rewrite (lookup_insert_ne _ (key ++ "mod") (a ++ "mod")) by congruence.
      by apply Hs.
  - injection Hset as <-. intros a Ha.
    assert (key <> a) by congruence.
    assert (key <> a ++ "mod").
    { intros ->. by apply Hmod, mod_key_of_ability. }
    rewrite !lookup_insert_ne by congruence. by apply Hs.
Qed.

Lemma after_setitem_in_sync (s : gmap string value) (kv : string * value) :
  in_sync s -> in_sync (Stats.after_setitem s kv).
Proof.
  intros Hs. unfold Stats.after_setitem.
  destruct (Stats.setitem s kv.1 kv.2) eqn:Hset; [| exact Hs].
  eapply setitem_in_sync; eassumption.
Qed.

Lemma setitems_in_sync (items : list (string * value)) (s s' : gmap string value) :
  in_sync s -> Stats.setitems s items = Ok s' -> in_sync s'.
Proof.
  revert s. induction items as [| [key v] items IH]; intros s Hs Hinit; simpl in Hinit.
  - by injection Hinit as <-.
  - destruct (Stats.setitem s key v) as [s1 |] eqn:Hset; simpl in Hinit; [| discriminate].
    apply (IH s1); [| exact Hinit]. eapply setitem_in_sync; eassumption.
Qed.

(** C9. A StatBlock built from any source mapping and then written any
    number of times keeps every modifier entry in sync with its ability;
    a write to an ability stores the recomputed modifier with it; a write
    to a modifier key changes nothing. *)
Theorem stats_modifiers_in_sync
    (from_dict writes : list (string * value)) (s0 : gmap string value) :
  Stats.init from_dict = Ok s0 ->
  in_sync (foldl Stats.after_setitem s0 writes)
  /\ (forall s a v s', a ∈ Stats.ability_keys -> Stats.setitem s a v = Ok s' ->
        exists m, Stats.get_modifier v = Ok m
                  /\ s' !! a = Some v /\ s' !! (a ++ "mod") = Some (VStr m))
  /\ (forall s key v, key ∈ Stats.mod_keys -> Stats.setitem s key v = Ok s).
Proof.
  intros Hinit. split; [| split].
  - assert (Hs0 : in_sync s0) by (eapply setitems_in_sync; [apply in_sync_empty | exact Hinit]).
    clear Hinit. revert s0 Hs0.
    induction writes as [| w writes IH]; intros s0 Hs0; simpl; [exact Hs0 |].
    apply IH. by apply after_setitem_in_sync.
  - intros s a v s' Ha Hset. unfold Stats.setitem in Hset.
    rewrite bool_decide_eq_false_2 in Hset by (by apply ability_not_mod_key).
    rewrite bool_decide_eq_true_2 in Hset by exact Ha.
    destruct (Stats.get_modifier v) as [m |]; simpl in Hset; [| discriminate].
    injection Hset as <-. exists m. split; [reflexivity |].
    split; [apply lookup_insert_eq |].
    rewrite lookup_insert_ne.
    + apply lookup_insert_eq.
    + intros Heq. apply (ability_not_mod_key a Ha). rewrite Heq.
      by apply mod_key_of_ability.
  - intros s key v Hkey. unfold Stats.setitem.
    by rewrite bool_decide_eq_true_2.
Qed.

Lemma stats_modifiers_in_sync_witness :
  let from_dict := [("strmod", VStr "+9"); ("str", VInt 15); ("name", VStr "bob")] in
  let writes := [("dex", VInt 8); ("dexmod", VStr "+7"); ("con", VStr "x")] in
  let s0 := <["name" := VStr "bob"]> (<["str" := VInt 15]> (<["strmod" := VStr "+2"]> ∅)) in
  Stats.init from_dict = Ok s0
  /\ in_sync (foldl Stats.after_setitem s0 writes).
Proof.
  intros from_dict writes s0.
  assert (Hinit : Stats.init from_dict = Ok s0) by (vm_compute; reflexivity).
  split; [exact Hinit |].
  exact (proj1 (stats_modifiers_in_sync from_dict writes s0 Hinit)).
Defined.

(** ** Drawing dice *)

Lemma bind_ok {A B} (m : action A) (k : A -> action B) t w b w' :
  bind m k t w = (Ok b, w') ->
  exists a w1, m t w = (Ok a, w1) /\ k a t w1 = (Ok b, w').
Proof.
  unfold bind. destruct (m t w) as [[a | e] w1]; [eauto | discriminate].
Qed.

Lemma lift_ok {A} (r : result A) t w a w' :
  lift r t w = (Ok a, w') -> r = Ok a /\ w' = w.
Proof. unfold lift. intros [= -> ->]. auto. Qed.

Lemma pure_ok {A} (x : A) t w a w' :
  pure x t w = (Ok a, w') -> a = x /\ w' = w.
Proof. unfold pure. intros [= -> ->]. auto. Qed.

Lemma randint_ok (a b : Z) t w x w' :
  randint a b t w = (Ok x, w') ->
  a <= x <= b /\ w' = World (engine w) (S (cursor w)).
Proof.
  unfold randint. destruct (Z.ltb_spec b a) as [| Hab]; [discriminate |].
  intros [= <- <-]. split; [| reflexivity].
  pose proof (Z.mod_pos_bound (Z.of_nat (t (cursor w))) (b - a + 1)). lia.
Qed.

Lemma draw_ok (n : nat) (sides : string) t w l w' :
  Dice.draw n sides t w = (Ok l, w') ->
  length l = n
  /\ (forall s, Text.int_of_str sides = Ok s -> Forall (fun x => 1 <= x <= s) l)
  /\ w' = World (engine w) (cursor w + n).
Proof.
  revert w l. induction n as [| n IH]; intros w l Hdraw; simpl in Hdraw.
  - apply pure_ok in Hdraw as [-> ->]. repeat split; [constructor |].
    destruct w; simpl; f_equal; lia.
  - apply bind_ok in Hdraw as (s & w1 & Hs & Hdraw). apply lift_ok in Hs as [Hs ->].
    apply bind_ok in Hdraw as (x & w2 & Hx & Hdraw). apply randint_ok in Hx as [Hx ->].
    apply bind_ok in Hdraw as (xs & w3 & Hxs & Hdraw).
    apply pure_ok in Hdraw as [-> ->].
    apply IH in Hxs as (Hlen & Hall & ->). simpl.
    split; [by rewrite Hlen |]. split.
    + intros s' Hs'. rewrite Hs in Hs'. injection Hs' as <-. constructor; [lia | by apply Hall].
    + f_equal. lia.
Qed.

Lemma draw_total (n : nat) (sides : string) (s : Z) t w :
  Text.int_of_str sides = Ok s -> 1 <= s ->
  exists l, Dice.draw n sides t w = (Ok l, World (engine w) (cursor w + n)).
Proof.
  intros Hs Hpos. revert w. induction n as [| n IH]; intros w; simpl.
  - exists []. unfold pure. destruct w; simpl. do 2 f_equal. lia.
  - destruct (IH (World (engine w) (S (cursor w)))) as [l Hl]. simpl in Hl.
    eexists. unfold bind at 1. unfold lift. rewrite Hs.
    unfold bind at 1. unfold randint.
    destruct (Z.ltb_spec s 1) as [| _]; [lia |].
    unfold bind at 1. rewrite Hl. unfold pure. do 2 f_equal. lia.
Qed.

(** What a successful evaluation did, step by step. *)
Lemma evaluate_ok (parse : roll_match) t w o w' :
  Dice.evaluate parse t w = (Ok o, w') ->
  exists number rolls rerolls values w1,
    Dice.count (m_number parse) = Ok number
    /\ Dice.draw (Z.to_nat number) (m_sides parse) t w = (Ok rolls, w1)
    /\ Dice.draw (Z.to_nat number) (m_sides parse) t w1 = (Ok rerolls, w')
    /\ Dice.constant_values (m_constants parse) = Ok values
    /\ o = Outcome rolls rerolls
             (Dice.choose (Text.strip <$> m_adv parse) rolls rerolls)
             (sum (Dice.choose (Text.strip <$> m_adv parse) rolls rerolls ++ values))
             (Text.strip <$> m_adv parse).
Proof.
  unfold Dice.evaluate. intros H.
  apply bind_ok in H as (number & w0 & Hn & H). apply lift_ok in Hn as [Hn ->].
  apply bind_ok in H as (rolls & w1 & Hrolls & H).
  apply bind_ok in H as (rerolls & w2 & Hrerolls & H).
  apply bind_ok in H as (values & w3 & Hvalues & H). apply lift_ok in Hvalues as [Hvalues ->].
  apply pure_ok in H as [-> ->].
  exists number, rolls, rerolls, values, w1. auto.
Qed.

Lemma sum_app (l1 l2 : list Z) : sum (l1 ++ l2) = sum l1 + sum l2.
Proof. unfold sum. induction l1 as [| x l1 IH]; simpl; lia. Qed.

Lemma choose_cases (adv : option string) (rolls rerolls : list Z) :
  (adv = Some "A" ->
     sum rolls <= sum (Dice.choose adv rolls rerolls)
     /\ (sum rolls < sum rerolls -> Dice.choose adv rolls rerolls = rerolls)
     /\ (sum rerolls <= sum rolls -> Dice.choose adv rolls rerolls = rolls))
  /\ (adv = Some "D" ->
     sum (Dice.choose adv rolls rerolls) <= sum rolls
     /\ (sum rerolls < sum rolls -> Dice.choose adv rolls rerolls = rerolls)
     /\ (sum rolls <= sum rerolls -> Dice.choose adv rolls rerolls = rolls))
  /\ (adv <> Some "A" -> adv <> Some "D" -> Dice.choose adv rolls rerolls = rolls).
Proof.
  unfold Dice.choose. split; [| split].
  - intros ->. simpl.
    destruct (Z.ltb_spec (sum rolls) (sum rerolls)).
    + repeat split; [lia | lia].
    + repeat split; lia.
  - intros ->. simpl.
    destruct (Z.ltb_spec (sum rerolls) (sum rolls)); repeat split; lia.
  - intros HA HD. rewrite !bool_decide_eq_false_2 by assumption. reflexivity.
Qed.

(** C1. Whatever sets the evaluator draws for a parsed expression: under
    flag A the chosen set sums to at least the primary set, and it is the
    re-roll set exactly when that one sums to strictly more; under flag D
    the chosen set sums to at most the primary set, and it is the re-roll
    set exactly when that one sums to strictly less; with no flag the
    chosen set is the primary set. *)
Theorem advantage_choice (parse : roll_match) (t : tape) (w w' : world) (o : outcome) :
  Dice.evaluate parse t w = (Ok o, w') ->
  (o_adv o = Some "A" ->
     sum (o_rolls o) <= sum (o_true_rolls o)
     /\ (sum (o_rolls o) < sum (o_rerolls o) -> o_true_rolls o = o_rerolls o)
     /\ (sum (o_rerolls o) <= sum (o_rolls o) -> o_true_rolls o = o_rolls o))
  /\ (o_adv o = Some "D" ->
     sum (o_true_rolls o) <= sum (o_rolls o)
     /\ (sum (o_rerolls o) < sum (o_rolls o) -> o_true_rolls o = o_rerolls o)
     /\ (sum (o_rolls o) <= sum (o_rerolls o) -> o_true_rolls o = o_rolls o))
  /\ (o_adv o = None -> o_true_rolls o = o_rolls o)
  /\ (o_adv o = None <-> m_adv parse = None).
Proof.
  intros Heval.
  apply evaluate_ok in Heval as (number & rolls & rerolls & values & w1 & _ & _ & _ & _ & ->).
  simpl.
  destruct (choose_cases (Text.strip <$> m_adv parse) rolls rerolls) as (HA & HD & Hnone).
  split; [exact HA |]. split; [exact HD |]. split.
  - intros Hadv. apply Hnone; rewrite Hadv; discriminate.
  - destruct (m_adv parse); simpl; split; intros; congruence.
Qed.

Lemma advantage_choice_witness :
  let t : tape := fun n => (7 * n)%nat in
  let w := World (Helper ∅ ∅ ∅ ∅ None) 0 in
  let o := Outcome [1; 2; 3] [4; 5; 6] [4; 5; 6] 17 (Some "A") in
  Dice.evaluate (RollMatch "3" "6" ["+ 3"; "-1"] (Some " A")) t w
  = (Ok o, World (Helper ∅ ∅ ∅ ∅ None) 6)
  /\ sum (o_rolls o) <= sum (o_true_rolls o).
Proof.
  intros t w o.
  assert (H : Dice.evaluate (RollMatch "3" "6" ["+ 3"; "-1"] (Some " A")) t w
              = (Ok o, World (Helper ∅ ∅ ∅ ∅ None) 6)) by (vm_compute; reflexivity).
  split; [exact H |].
  exact (proj1 (proj1 (advantage_choice _ t w _ o H) eq_refl)).
Defined.

(** ** Text lemmas *)

Lemma app_cons (c : ascii) (a b : string) : String c a ++ b = String c (a ++ b).
Proof. reflexivity. Qed.

Lemma app_nil (b : string) : EmptyString ++ b = b.
Proof. reflexivity. Qed.

Lemma app_nil_r (a : string) : a ++ EmptyString = a.
Proof. induction a as [| c a IH]; [reflexivity |]. rewrite app_cons. by rewrite IH. Qed.

Lemma app_assoc (a b c : string) : (a ++ b) ++ c = a ++ (b ++ c).
Proof. induction a as [| x a IH]; [reflexivity |]. rewrite !app_cons. by rewrite IH. Qed.

Lemma app_length (a b : string) :
  String.length (a ++ b) = (String.length a + String.length b)%nat.
Proof. induction a as [| x a IH]; [reflexivity |]. rewrite app_cons. simpl. by rewrite IH. Qed.

Lemma app_inv_head (a x y : string) : a ++ x = a ++ y -> x = y.
Proof.
  induction a as [| c a IH]; [by rewrite !app_nil |].
  rewrite !app_cons. intros [= H]. by apply IH.
Qed.

Lemma span_app (p : ascii -> bool) (a b : string) :
  Text.all p a = true -> Text.starts_in p b = false ->
  Text.span p (a ++ b) = (a, b).
Proof.
  intros Ha Hb. induction a as [| c a IH].
  - rewrite app_nil. destruct b as [| c b]; [reflexivity |].
    simpl in *. by rewrite Hb.
  - rewrite app_cons. simpl in *. apply andb_true_iff in Ha as [Hc Ha].
    rewrite Hc, IH by exact Ha. reflexivity.
Qed.

Lemma span_stop (p : ascii -> bool) (b : string) :
  Text.starts_in p b = false -> Text.span p b = (EmptyString, b).
Proof. intros Hb. by apply (span_app p EmptyString b). Qed.

Lemma starts_in_app (p : ascii -> bool) (a b : string) :
  a <> EmptyString -> Text.starts_in p (a ++ b) = Text.starts_in p a.
Proof. destruct a; [congruence | reflexivity]. Qed.

Lemma digit_code (c : ascii) :
  Text.is_digit c = true <-> (48 <= Text.code c <= 57)%nat.
Proof.
  unfold Text.is_digit. rewrite andb_true_iff, !Nat.leb_le. reflexivity.
Qed.

Lemma digit_not_re_space (c : ascii) : Text.is_digit c = true -> Text.re_space c = false.
Proof.
  rewrite digit_code. unfold Text.re_space. set (n := Text.code c). intros Hc.
  destruct (Nat.leb_spec n 13), (Nat.eqb_spec n 32), (Nat.eqb_spec n 133),
    (Nat.eqb_spec n 160); rewrite ?andb_false_r; simpl; try reflexivity; lia.
Qed.

Lemma digit_not_py_space (c : ascii) : Text.is_digit c = true -> Text.py_space c = false.
Proof.
  intros Hc. unfold Text.py_space. rewrite digit_not_re_space by exact Hc.
  apply digit_code in Hc. simpl.
  destruct (Nat.leb_spec (Text.code c) 31); rewrite ?andb_false_r; [lia | reflexivity].
Qed.

Lemma sign_cases (c : ascii) : DiceRegex.is_sign c = true -> c = "+"%char \/ c = "-"%char.
Proof.
  unfold DiceRegex.is_sign. intros H. apply orb_true_iff in H as [H | H];
    apply Ascii.eqb_eq in H; auto.
Qed.

Lemma sign_not_digit (c : ascii) : DiceRegex.is_sign c = true -> Text.is_digit c = false.
Proof. intros H. by destruct (sign_cases c H) as [-> | ->]. Qed.

Lemma sign_not_space (c : ascii) :
  DiceRegex.is_sign c = true -> Text.re_space c = false /\ Text.py_space c = false.
Proof. intros H. by destruct (sign_cases c H) as [-> | ->]. Qed.

Lemma all_digits_not_space (s : string) :
  Text.all Text.is_digit s = true ->
  Text.all (fun c => negb (Text.py_space c)) s = true
  /\ Text.remove_spaces s = s.
Proof.
  induction s as [| c s IH]; [done |]. simpl. intros H.
  apply andb_true_iff in H as [Hc Hs]. destruct (IH Hs) as [IH1 IH2].
  rewrite digit_not_py_space, digit_not_re_space by exact Hc. simpl.
  by rewrite IH1, IH2.
Qed.

Lemma remove_spaces_all (ws : string) (r : string) :
  Text.all Text.re_space ws = true -> Text.remove_spaces (ws ++ r) = Text.remove_spaces r.
Proof.
  induction ws as [| c ws IH]; [done |]. simpl. intros H.
  apply andb_true_iff in H as [Hc Hs]. rewrite ?app_cons. simpl. rewrite Hc. by apply IH.
Qed.

Lemma rstrip_no_space (s : string) :
  Text.all (fun c => negb (Text.py_space c)) s = true -> Text.rstrip s = s.
Proof.
  induction s as [| c s IH]; [done |]. simpl. intros H.
  apply andb_true_iff in H as [Hc Hs]. rewrite IH by exact Hs.
  apply negb_true_iff in Hc. by rewrite Hc.
Qed.

Lemma strip_no_space (s : string) :
  Text.all (fun c => negb (Text.py_space c)) s = true -> Text.strip s = s.
Proof.
  intros H. unfold Text.strip.
  assert (Text.lstrip s = s) as ->.
  { destruct s as [| c s]; [done |]. simpl in *.
    apply andb_true_iff in H as [Hc _]. apply negb_true_iff in Hc. by rewrite Hc. }
  by apply rstrip_no_space.
Qed.

Lemma digits_value_some (s : string) (acc : Z) (after : bool) :
  Text.all Text.is_digit s = true -> (s <> EmptyString \/ after = true) ->
  0 <= acc ->
  exists n, Text.digits_value acc after s = Some n /\ 0 <= n.
Proof.
  revert acc after. induction s as [| c s IH]; intros acc after Hs Hne Hacc.
  - destruct Hne as [| ->]; [done |]. simpl. eauto.
  - simpl in *. apply andb_true_iff in Hs as [Hc Hs]. rewrite Hc.
    apply IH; [exact Hs | by right |].
    apply digit_code in Hc. unfold Text.digit_value. lia.
Qed.

(** ** The limit on digits *)

Lemma count_digits_nonneg (s : string) : 0 <= Text.count_digits s.
Proof. induction s as [| c s IH]; simpl; [lia |]. destruct (Text.is_digit c); lia. Qed.

Lemma count_digits_app (a b : string) :
  Text.count_digits (a ++ b) = Text.count_digits a + Text.count_digits b.
Proof.
  induction a as [| c a IH]; [by rewrite app_nil |].
  rewrite app_cons. simpl. rewrite IH. lia.
Qed.

Lemma count_digits_spaces (ws : string) :
  Text.all Text.re_space ws = true -> Text.count_digits ws = 0.
Proof.
  induction ws as [| c ws IH]; [reflexivity |]. simpl.
  intros H. apply andb_true_iff in H as [Hc Hws]. rewrite IH by exact Hws.
  destruct (Text.is_digit c) eqn:Hd; [| reflexivity].
  apply digit_not_re_space in Hd. congruence.
Qed.

(** The digits of a constant are those after its sign and spaces. *)
Lemma count_digits_constant (sg : ascii) (ws ds : string) :
  DiceRegex.is_sign sg = true -> Text.all Text.re_space ws = true ->
  Text.count_digits (String sg (ws ++ ds)) = Text.count_digits ds.
Proof.
  intros Hsg Hws. simpl. rewrite count_digits_app, count_digits_spaces by exact Hws.
  by destruct (sign_cases sg Hsg) as [-> | ->].
Qed.

(** [int] succeeds on a run of digits within the limit, and on a sign
    followed by one. *)
Lemma int_of_digits (s : string) :
  Text.all Text.is_digit s = true -> s <> EmptyString -> within_limit s ->
  exists n, Text.int_of_str s = Ok n /\ 0 <= n.
Proof.
  intros Hs Hne Hlimit. unfold Text.int_of_str.
  rewrite strip_no_space by (by apply all_digits_not_space).
  destruct (digits_value_some s 0 false Hs (or_introl Hne)) as (n & Hn & Hpos); [lia |].
  destruct s as [| c s]; [done |].
  assert (Hc : Text.is_digit c = true) by (simpl in Hs; by apply andb_true_iff in Hs as [? _]).
  assert (c <> "+"%char /\ c <> "-"%char) as [Hplus Hminus].
  { split; intros ->; discriminate Hc. }
  assert (Hbody : (match String c s with
                   | String "+" r => (1, r)
                   | String "-" r => (-1, r)
                   | _ => (1, String c s)
                   end) = (1, String c s)).
  { destruct c as [[] [] [] [] [] [] [] []]; try reflexivity; congruence. }
  rewrite Hbody. simpl fst. simpl snd. rewrite Hn.
  destruct (Z.ltb_spec Text.max_str_digits (Text.count_digits (String c s))) as [Hover | _].
  - unfold within_limit in Hlimit. lia.
  - exists n. split; [f_equal; lia | exact Hpos].
Qed.

Lemma int_of_constant (c : string) :
  constant_text c -> within_limit c ->
  exists v, Text.int_of_str (Text.remove_spaces c) = Ok v.
Proof.
  intros (sg & ws & ds & -> & Hsg & Hws & Hds & Hne) Hlimit.
  unfold within_limit in Hlimit. rewrite count_digits_constant in Hlimit by assumption.
  simpl. rewrite (proj1 (sign_not_space sg Hsg)).
  rewrite remove_spaces_all by exact Hws.
  rewrite (proj2 (all_digits_not_space ds Hds)).
  unfold Text.int_of_str. rewrite strip_no_space.
  2:{ simpl. rewrite (proj2 (sign_not_space sg Hsg)). simpl.
      by apply all_digits_not_space. }
  destruct (digits_value_some ds 0 false Hds (or_introl Hne)) as (n & Hn & _); [lia |].
  destruct (sign_cases sg Hsg) as [-> | ->]; simpl; rewrite Hn;
    (destruct (Z.ltb_spec Text.max_str_digits (Text.count_digits ds)); [lia | eauto]).
Qed.

(** ** The dice parser *)

Lemma constant_term_app (c rest : string) :
  constant_text c -> Text.starts_in Text.is_digit rest = false ->
  DiceRegex.constant_term (c ++ rest) = Some (c, rest).
Proof.
  intros (sg & ws & ds & -> & Hsg & Hws & Hds & Hne) Hrest.
  rewrite app_cons. unfold DiceRegex.constant_term. rewrite Hsg.
  rewrite app_assoc.
  rewrite (span_app Text.re_space ws (ds ++ rest)); [| exact Hws |].
  - rewrite (span_app Text.is_digit ds rest) by assumption.
    destruct ds; [done | reflexivity].
  - rewrite starts_in_app by exact Hne.
    destruct ds as [| d ds]; [done |]. simpl in *.
    apply andb_true_iff in Hds as [Hd _]. by apply digit_not_re_space.
Qed.

Lemma concat_length (cs : list string) :
  Forall constant_text cs -> (length cs <= String.length (concat cs))%nat.
Proof.
  induction 1 as [| c cs (sg & ws & ds & -> & _) _ IH]; [done |].
  change (concat (String sg (ws ++ ds) :: cs)) with (String sg (ws ++ ds) ++ concat cs).
  rewrite app_length. simpl. lia.
Qed.

Lemma span_length (p : ascii -> bool) (s a b : string) :
  Text.span p s = (a, b) ->
  String.length s = (String.length a + String.length b)%nat.
Proof.
  revert a b. induction s as [| c s IH]; intros a b; simpl.
  - by intros [= <- <-].
  - destruct (p c).
    + destruct (Text.span p s) as [a' b']. intros [= <- <-].
      simpl. by rewrite (IH a' b').
    + by intros [= <- <-].
Qed.

Lemma constant_term_shorter (s c r : string) :
  DiceRegex.constant_term s = Some (c, r) ->
  (String.length r < String.length s)%nat.
Proof.
  unfold DiceRegex.constant_term. destruct s as [| sg s]; [discriminate |].
  destruct (DiceRegex.is_sign sg); [| discriminate].
  destruct (Text.span Text.re_space s) as [ws r1] eqn:Hws.
  destruct (Text.span Text.is_digit r1) as [ds r2] eqn:Hds.
  destruct (Text.is_empty ds); [discriminate |]. intros [= _ <-].
  apply span_length in Hws. apply span_length in Hds. simpl. lia.
Qed.

(** The fuel [roll_regex] gives the star is enough: with the length of
    the text or more, the rounds stop because no constant follows. *)
Lemma constant_terms_fuel (fuel : nat) (s : string) :
  (String.length s <= fuel)%nat ->
  DiceRegex.constant_terms fuel s = DiceRegex.constant_terms (String.length s) s
  /\ DiceRegex.constant_term (snd (DiceRegex.constant_terms fuel s)) = None.
Proof.
  revert s. induction fuel as [fuel IH] using lt_wf_ind. intros s Hfuel.
  destruct (DiceRegex.constant_term s) as [[c r] |] eqn:Hterm.
  - pose proof (constant_term_shorter s c r Hterm) as Hshort.
    destruct fuel as [| fuel]; [lia |].
    destruct (String.length s) as [| n] eqn:Hlen; [lia |].
    simpl. rewrite Hterm.
    destruct (IH fuel ltac:(lia) r ltac:(lia)) as [Hfuel1 Hstop1].
    destruct (IH n ltac:(lia) r ltac:(lia)) as [Hfuel2 _].
    rewrite Hfuel2, <- Hfuel1 in *.
    destruct (DiceRegex.constant_terms fuel r) as [cs r']. simpl in *. auto.
  - assert (Hnone : forall n, DiceRegex.constant_terms n s = ([], s)).
    { intros [| n]; simpl; [reflexivity | by rewrite Hterm]. }
    rewrite !Hnone. simpl. auto.
Qed.

Lemma constant_terms_stop (fuel : nat) (s : string) :
  DiceRegex.constant_term s = None -> DiceRegex.constant_terms fuel s = ([], s).
Proof. intros Hs. destruct fuel; simpl; [reflexivity | by rewrite Hs]. Qed.

Lemma constant_terms_concat_rest (cs : list string) (rest : string) (fuel : nat) :
  Forall constant_text cs ->
  DiceRegex.constant_term rest = None -> Text.starts_in Text.is_digit rest = false ->
  (length cs <= fuel)%nat ->
  DiceRegex.constant_terms fuel (concat cs ++ rest) = (cs, rest).
Proof.
  intros Hcs Hrest Hdigit. revert fuel.
  induction Hcs as [| c cs Hc Hcs IH]; intros fuel Hfuel.
  - by apply constant_terms_stop.
  - destruct fuel as [| fuel]; [simpl in Hfuel; lia |].
    change (concat (c :: cs)) with (c ++ concat cs). rewrite app_assoc. simpl.
    rewrite constant_term_app; [| exact Hc |].
    + rewrite IH by (simpl in Hfuel; lia). reflexivity.
    + destruct Hcs as [| c' cs' (sg & ws & ds & -> & Hsg & _) _]; [exact Hdigit |].
      simpl. by apply sign_not_digit.
Qed.

(** An expression in full: spaces before the constants, and after them a
    text that continues no number and starts no constant. *)
Lemma roll_regex_rest (number sides ws : string) (cs : list string) (rest : string) :
  Text.all Text.is_digit number = true ->
  Text.all Text.is_digit sides = true -> sides <> EmptyString ->
  Text.all Text.re_space ws = true ->
  Forall constant_text cs ->
  DiceRegex.constant_term rest = None ->
  Text.starts_in Text.is_digit rest = false ->
  (cs = [] -> Text.starts_in Text.re_space rest = false) ->
  DiceRegex.roll_regex (number ++ String "d" (sides ++ ws ++ concat cs ++ rest))
  = Some (RollMatch number sides cs (DiceRegex.flag_group rest)).
Proof.
  intros Hnumber Hsides Hne Hws Hcs Hterm Hdigit Hspace.
  assert (Hstart : forall p, (forall x, DiceRegex.is_sign x = true -> p x = false) ->
                             Text.starts_in p rest = false ->
                             Text.starts_in p (concat cs ++ rest) = false).
  { intros p Hp Hrest. destruct Hcs as [| c' cs' (sg & ws' & ds & -> & Hsg & _) _]; [done |].
    simpl. by apply Hp. }
  assert (Hafter : Text.starts_in Text.re_space (concat cs ++ rest) = false).
  { destruct Hcs as [| c' cs' (sg & ws' & ds & -> & Hsg & _) _]; [by apply Hspace |].
    simpl. by apply sign_not_space. }
  assert (Hnext : Text.starts_in Text.is_digit (ws ++ concat cs ++ rest) = false).
  { destruct ws as [| x ws].
    - rewrite app_nil. by apply Hstart; [apply sign_not_digit |].
    - simpl. simpl in Hws. apply andb_true_iff in Hws as [Hx _].
      destruct (Text.is_digit x) eqn:Hd; [| reflexivity].
      apply digit_not_re_space in Hd. congruence. }
  unfold DiceRegex.roll_regex.
  rewrite (span_app Text.is_digit number) by (exact Hnumber || reflexivity).
  rewrite (span_app Text.is_digit sides) by assumption.
  destruct sides as [| d sides]; [done |]. simpl Text.is_empty. cbv iota.
  rewrite (span_app Text.re_space ws) by assumption.
  rewrite constant_terms_concat_rest; [reflexivity | exact Hcs | exact Hterm | exact Hdigit |].
  rewrite app_length. pose proof (concat_length cs Hcs). lia.
Qed.

(** The values of the constants are their conversions, one by one. *)
Lemma constant_values_each (cs : list string) (values : list Z) :
  Forall constant_text cs -> Dice.constant_values cs = Ok values ->
  Forall2 (fun c v => Text.int_of_str (Text.remove_spaces c) = Ok v) cs values.
Proof.
  intros Hcs. revert values.
  induction Hcs as [| c cs (sg & ws & ds & -> & _) _ IH]; intros values.
  - intros [= <-]. constructor.
  - cbn [Dice.constant_values Text.is_empty].
    destruct (Text.int_of_str _) as [v |] eqn:Hv; [| discriminate]. simpl.
    destruct (Dice.constant_values cs) as [vs |]; [| discriminate]. simpl.
    intros [= <-]. constructor; [exact Hv | by apply IH].
Qed.

(** Every constant within the limit converts once its spaces are
    removed. *)
Lemma constant_values_ok (cs : list string) :
  Forall constant_text cs -> Forall within_limit cs ->
  exists values, Dice.constant_values cs = Ok values.
Proof.
  induction 1 as [| c cs Hc _ IH]; [by exists [] |].
  intros Hlimit. apply Forall_cons in Hlimit as [Hlimit Hlimits].
  destruct (IH Hlimits) as (values & Hvalues).
  destruct (int_of_constant c Hc Hlimit) as [v Hv].
  exists (v :: values).
  destruct Hc as (sg & ws & ds & -> & _). simpl.
  simpl in Hv. by rewrite Hv, Hvalues.
Qed.

Lemma count_ok (number : string) :
  Text.all Text.is_digit number = true -> within_limit number ->
  exists n, Dice.count number = Ok n.
Proof.
  intros Hnumber Hlimit. unfold Dice.count.
  destruct number as [| c number]; [by exists 1 |].
  destruct (int_of_digits (String c number) Hnumber) as (n & Hn & _); [done | done |].
  simpl Text.is_empty. cbv iota. eauto.
Qed.

(** Evaluation returns once the count, the sides and the constants
    convert and the die has a side. *)
Lemma evaluate_total (number sides : string) (cs : list string) (adv : option string)
    (n s : Z) (values : list Z) (t : tape) (w : world) :
  Dice.count number = Ok n ->
  Text.int_of_str sides = Ok s -> 1 <= s ->
  Dice.constant_values cs = Ok values ->
  exists o w', Dice.evaluate (RollMatch number sides cs adv) t w = (Ok o, w').
Proof.
  intros Hn Hsides Hs Hvalues.
  destruct (draw_total (Z.to_nat n) sides s t w Hsides Hs) as [rolls Hrolls].
  destruct (draw_total (Z.to_nat n) sides s t
              (World (engine w) (cursor w + Z.to_nat n)) Hsides Hs) as [rerolls Hrerolls].
  unfold Dice.evaluate. simpl m_number. simpl m_sides. simpl m_constants.
  unfold bind at 1. unfold lift at 1. rewrite Hn.
  unfold bind at 1. rewrite Hrolls.
  unfold bind at 1. rewrite Hrerolls.
  unfold bind at 1. unfold lift at 1. rewrite Hvalues.
  unfold pure. eauto.
Qed.

(** C4. The parser captures every signed constant of an expression, in
    order, not only the last: for a count, the letter d, the sides,
    spaces or none, the constants one after the other, and any text that
    continues no number and starts no constant, the match holds that
    count, those sides, every constant, and the flag the rest starts
    with. Whenever an evaluation returns, with or without a flag, every
    constant has been converted, its inner spaces removed, and the total
    is the sum of the chosen set plus the value of every constant. The
    evaluation does return when the count and the constants have no more
    digits than the limit and the die has a side. The expression 2d6+3-1
    has count 2, sides 6 and constants +3 and -1. *)
Theorem every_constant_counts (number sides ws : string) (cs : list string)
    (rest : string) :
  Text.all Text.is_digit number = true ->
  Text.all Text.is_digit sides = true -> sides <> EmptyString ->
  Text.all Text.re_space ws = true ->
  Forall constant_text cs ->
  DiceRegex.constant_term rest = None ->
  Text.starts_in Text.is_digit rest = false ->
  (cs = [] -> Text.starts_in Text.re_space rest = false) ->
  DiceRegex.roll_regex (number ++ String "d" (sides ++ ws ++ concat cs ++ rest))
  = Some (RollMatch number sides cs (DiceRegex.flag_group rest))
  /\ (forall adv t w o w',
        Dice.evaluate (RollMatch number sides cs adv) t w = (Ok o, w') ->
        exists values,
          Dice.constant_values cs = Ok values
          /\ Forall2 (fun c v => Text.int_of_str (Text.remove_spaces c) = Ok v) cs values
          /\ o_total o = sum (o_true_rolls o) + sum values)
  /\ (forall adv s t w,
        Forall within_limit cs -> within_limit number ->
        Text.int_of_str sides = Ok s -> 1 <= s ->
        exists o w', Dice.evaluate (RollMatch number sides cs adv) t w = (Ok o, w'))
  /\ DiceRegex.roll_regex "2d6+3-1" = Some (RollMatch "2" "6" ["+3"; "-1"] None)
  /\ Dice.count "2" = Ok 2
  /\ Text.int_of_str "6" = Ok 6
  /\ Dice.constant_values ["+3"; "-1"] = Ok [3; -1].
Proof.
  intros Hnumber Hsides Hne Hws Hcs Hterm Hdigit Hspace.
  split; [by apply roll_regex_rest |].
  split; [| split; [| repeat split]].
  - intros adv t w o w' Heval.
    apply evaluate_ok in Heval as (n & rolls & rerolls & values & w1 & _ & _ & _ & Hv & ->).
    simpl in Hv. exists values. split; [exact Hv |].
    split; [by apply constant_values_each |].
    simpl. apply sum_app.
  - intros adv s t w Hlimit Hcount Hs Hpos.
    destruct (count_ok number Hnumber Hcount) as [n Hn].
    destruct (constant_values_ok cs Hcs Hlimit) as [values Hvalues].
    by eapply evaluate_total.
Qed.

Lemma every_constant_counts_witness :
  DiceRegex.roll_regex "2d6+3-1" = Some (RollMatch "2" "6" ["+3"; "-1"] None)
  /\ DiceRegex.roll_regex "2d6 +3- 1 A"
     = Some (RollMatch "2" "6" ["+3"; "- 1"] (Some " A"))
  /\ (forall adv t w o w',
        Dice.evaluate (RollMatch "2" "6" ["+3"; "- 1"] adv) t w = (Ok o, w') ->
        o_total o = sum (o_true_rolls o) + sum [3; -1])
  /\ exists o w',
       Dice.evaluate (RollMatch "2" "6" ["+3"; "- 1"] (Some " A")) example_tape
         (World example_helper 0) = (Ok o, w').
Proof.
  assert (Hplain : Forall constant_text ["+3"; "-1"]).
  { repeat constructor.
    - exists "+"%char, EmptyString, "3". repeat split; discriminate.
    - exists "-"%char, EmptyString, "1". repeat split; discriminate. }
  assert (Hspaced : Forall constant_text ["+3"; "- 1"]).
  { repeat constructor.
    - exists "+"%char, EmptyString, "3". repeat split; discriminate.
    - exists "-"%char, " ", "1". repeat split; discriminate. }
  assert (Hlimit : Forall within_limit ["+3"; "- 1"]).
  { repeat constructor; vm_compute; discriminate. }
  assert (Hcount : within_limit "2") by (vm_compute; discriminate).
  split; [| split; [| split]].
  - exact (proj1 (every_constant_counts "2" "6" EmptyString ["+3"; "-1"] EmptyString
                    eq_refl eq_refl ltac:(discriminate) eq_refl Hplain eq_refl eq_refl
                    ltac:(discriminate))).
  - exact (proj1 (every_constant_counts "2" "6" " " ["+3"; "- 1"] " A"
                    eq_refl eq_refl ltac:(discriminate) eq_refl Hspaced eq_refl eq_refl
                    ltac:(discriminate))).
  - intros adv t w o w' Heval.
    destruct (proj1 (proj2 (every_constant_counts "2" "6" " " ["+3"; "- 1"] " A"
                              eq_refl eq_refl ltac:(discriminate) eq_refl Hspaced
                              eq_refl eq_refl ltac:(discriminate))) adv t w o w' Heval)
      as (values & Hvalues & _ & Htotal).
    injection Hvalues as <-. exact Htotal.
  - exact (proj1 (proj2 (proj2 (every_constant_counts "2" "6" " " ["+3"; "- 1"] " A"
                                  eq_refl eq_refl ltac:(discriminate) eq_refl Hspaced
                                  eq_refl eq_refl ltac:(discriminate))))
             (Some " A") 6 example_tape (World example_helper 0)
             Hlimit Hcount eq_refl ltac:(lia)).
Defined.

(** C5. An omitted count is 1: d20 is parsed with an empty count, twenty
    sides, no constant and no flag; the empty count evaluates as the count
    1 does, whatever the rest of the expression and the random source. *)
Theorem implicit_count_is_one :
  DiceRegex.roll_regex (Text.strip "d20") = Some (RollMatch EmptyString "20" [] None)
  /\ DiceRegex.roll_regex (Text.strip "1d20") = Some (RollMatch "1" "20" [] None)
  /\ Dice.count EmptyString = Ok 1
  /\ Dice.count "1" = Ok 1
  /\ Text.int_of_str "20" = Ok 20
  /\ (forall sides cs adv t w,
        Dice.evaluate (RollMatch EmptyString sides cs adv) t w
        = Dice.evaluate (RollMatch "1" sides cs adv) t w)
  /\ (forall rest,
        DiceRegex.roll_regex (String "1" (String "d" rest))
        = (fun p => RollMatch "1" (m_sides p) (m_constants p) (m_adv p))
            <$> DiceRegex.roll_regex (String "d" rest))
  /\ (forall rest p,
        DiceRegex.roll_regex (String "d" rest) = Some p -> m_number p = EmptyString).
Proof.
  repeat split.
  - intros rest. unfold DiceRegex.roll_regex.
    change (Text.span Text.is_digit (String "1" (String "d" rest)))
      with ("1", String "d" rest).
    change (Text.span Text.is_digit (String "d" rest))
      with (EmptyString, String "d" rest).
    cbv iota beta.
    destruct (Text.span Text.is_digit rest) as [sides r3].
    destruct (Text.is_empty sides); [reflexivity |].
    destruct (Text.span Text.re_space r3) as [ws r4].
    destruct (DiceRegex.constant_terms (String.length r4) r4) as [cs r5].
    reflexivity.
  - intros rest p. unfold DiceRegex.roll_regex.
    change (Text.span Text.is_digit (String "d" rest))
      with (EmptyString, String "d" rest).
    cbv iota beta.
    destruct (Text.span Text.is_digit rest) as [sides r3].
    destruct (Text.is_empty sides); [discriminate |].
    destruct (Text.span Text.re_space r3) as [ws r4].
    destruct (DiceRegex.constant_terms (String.length r4) r4) as [cs r5].
    by intros [= <-].
Qed.

Lemma implicit_count_is_one_witness :
  DiceRegex.roll_regex "1d6+2" = Some (RollMatch "1" "6" ["+2"] None)
  /\ m_number (RollMatch EmptyString "6" ["+2"] None) = EmptyString.
Proof.
  destruct implicit_count_is_one as (_ & _ & _ & _ & _ & _ & Hsame & Hnumber).
  split.
  - rewrite (Hsame "6+2"). reflexivity.
  - by apply (Hnumber "6+2").
Defined.

(** C3, on the input 1d8 X. The pattern of [roll] is not anchored at the
    end: the text is parsed as 1d8 and rolled, and the answer is not the
    unknown-command message. The same looseness drops the flag of 1d8 A,
    whose space the pattern consumes before the flag group, and admits
    the bar as a flag. *)
Theorem trailing_text_is_rolled (user character : string) (t : tape) (w : world) :
  DiceRegex.roll_regex (Text.strip "1d8 X") = Some (RollMatch "1" "8" [] None)
  /\ (exists x y,
        1 <= x <= 8 /\ 1 <= y <= 8
        /\ roll user character "1d8 X" t w
           = (Ok (Dice.respond user character "1d8 X" (Outcome [x] [y] [x] x None)),
              World (engine w) (S (S (cursor w)))))
  /\ fst (roll user character "1d8 X" t w)
     <> Ok ("<@" ++ user ++ "> Unknown command: " ++ "1d8 X")
  /\ DiceRegex.roll_regex (Text.strip "1d8 A") = Some (RollMatch "1" "8" [] None)
  /\ DiceRegex.roll_regex (Text.strip "1d8+0 |")
     = Some (RollMatch "1" "8" ["+0"] (Some " |")).
Proof.
  assert (Hroll : exists x y,
             1 <= x <= 8 /\ 1 <= y <= 8
             /\ roll user character "1d8 X" t w
                = (Ok (Dice.respond user character "1d8 X" (Outcome [x] [y] [x] x None)),
                   World (engine w) (S (S (cursor w))))).
  { exists (1 + Z.of_nat (t (cursor w)) mod 8), (1 + Z.of_nat (t (S (cursor w))) mod 8).
    pose proof (Z.mod_pos_bound (Z.of_nat (t (cursor w))) 8).
    pose proof (Z.mod_pos_bound (Z.of_nat (t (S (cursor w)))) 8).
    split; [lia |]. split; [lia |].
    unfold roll. change (DiceRegex.roll_regex (Text.strip "1d8 X"))
      with (Some (RollMatch "1" "8" [] None)).
    cbv beta iota. unfold bind, Dice.evaluate, bind, lift, pure. simpl.
    unfold bind, lift, pure, randint. simpl.
    change (1 * (10 * 0 + Text.digit_value "8") - 1 + 1) with 8.
    rewrite Z.add_0_r. reflexivity. }
  split; [reflexivity |]. split; [exact Hroll |]. split; [| split; reflexivity].
  destruct Hroll as (x & y & _ & _ & ->). simpl fst.
  unfold Dice.respond. simpl o_adv. cbv iota.
  intros [= H]. do 2 apply app_inv_head in H. discriminate H.
Qed.

(** ** The resolver *)

Lemma select_character_ok (self : RPGHelper) (user roll_command : string)
    (owned : list string) (character text : string) :
  select_character self user owned roll_command = Ok (character, text) ->
  exists first,
    head (Text.split roll_command) = Some first
    /\ ((is_Some (characters self !! Text.strip first)
         /\ Text.strip first ∈ owned
         /\ character = Text.strip first
         /\ text = Text.join " " (tail (Text.split roll_command)))
        \/ (characters self !! Text.strip first = None
            /\ user_default self !! user = Some character
            /\ text = roll_command)).
Proof.
  unfold select_character. intros H.
  destruct (user_default self !! user) as [dflt |]; simpl in H; [| discriminate].
  destruct (Text.split roll_command) as [| first rest]; simpl in H; [discriminate |].
  exists first. split; [reflexivity |].
  case_bool_decide as Hknown.
  - case_bool_decide as Howned; simpl in H; [| discriminate].
    injection H as <- <-. left. auto.
  - simpl in H. injection H as <- <-. right.
    split; [| auto]. by apply eq_None_not_Some.
Qed.

Lemma resolve_macro_pass_through (self : RPGHelper) (character text : string)
    (stats : gmap string value) (level : value) (prof : string) :
  characters self !! character = Some stats ->
  stats !! "level" = Some level ->
  get_proficiency_by_level level = Ok prof ->
  names_no_macro self stats text ->
  resolve_macro self character text = Ok (character, text).
Proof.
  intros Hstats Hlevel Hprof Hno. unfold resolve_macro, names_no_macro in *.
  rewrite Hstats. simpl. rewrite Hlevel. simpl. rewrite Hprof. simpl.
  destruct (Resolver.resolve_regex text) as [[command adv] |]; [| reflexivity].
  destruct Hno as [-> Hlocal].
  destruct (stats !! "macros") as [table |]; [| reflexivity].
  by rewrite Hlocal.
Qed.

(** C6. Macro lookup asks the global table first: a command found there
    is expanded from the global template, whatever the table of the
    character holds under that name; the table of the character is used
    for a command the global table lacks. *)
Theorem global_macro_first (self : RPGHelper) (user roll_command : string)
    (owned : list string) (character text : string) (stats : gmap string value)
    (level : value) (prof command : string) (adv : option string) :
  user_to_characters self !! user = Some owned ->
  select_character self user owned roll_command = Ok (character, text) ->
  characters self !! character = Some stats ->
  stats !! "level" = Some level ->
  get_proficiency_by_level level = Ok prof ->
  Resolver.resolve_regex text = Some (command, adv) ->
  (forall global_template,
     macros self !! command = Some global_template ->
     resolve_command self user roll_command
     = let! out := Resolver.expand global_template stats command prof adv in
       Ok (character, out))
  /\ (forall table local_template,
        macros self !! command = None ->
        stats !! "macros" = Some table ->
        Resolver.value_contains command table = Ok true ->
        Resolver.value_item table command = Ok local_template ->
        resolve_command self user roll_command
        = let! out := Resolver.expand local_template stats command prof adv in
          Ok (character, out)).
Proof.
  intros Howned Hselect Hstats Hlevel Hprof Hregex.
  unfold resolve_command. rewrite Howned, Hselect. simpl.
  unfold resolve_macro. rewrite Hstats. simpl. rewrite Hlevel. simpl.
  rewrite Hprof. simpl. rewrite Hregex.
  split.
  - intros global_template ->. reflexivity.
  - intros table local_template -> -> Hknown Hitem.
    rewrite Hknown. simpl. rewrite Hitem. reflexivity.
Qed.

Lemma global_macro_first_witness :
  macros example_helper !! "atk" = Some "d20{strmod}{is_proficient}{adv_or_disadv}"
  /\ Resolver.value_item (VDict [("atk", "d4"); ("own", "d6{dexmod}")]) "atk" = Ok "d4"
  /\ resolve_command example_helper "u1" "atk A" = Ok ("bob", "d20+2+3 A")
  /\ resolve_command example_helper "u1" "own" = Ok ("bob", "d6-1").
Proof.
  assert (Hatk : resolve_command example_helper "u1" "atk A" = Ok ("bob", "d20+2+3 A")).
  { rewrite (proj1 (global_macro_first example_helper "u1" "atk A" ["bob"] "bob" "atk A"
                      example_stats (VInt 5) "+3" "atk" (Some " A")
                      eq_refl eq_refl eq_refl eq_refl eq_refl eq_refl)
               "d20{strmod}{is_proficient}{adv_or_disadv}" eq_refl).
    vm_compute. reflexivity. }
  assert (Hown : resolve_command example_helper "u1" "own" = Ok ("bob", "d6-1")).
  { rewrite (proj2 (global_macro_first example_helper "u1" "own" ["bob"] "bob" "own"
                      example_stats (VInt 5) "+3" "own" None
                      eq_refl eq_refl eq_refl eq_refl eq_refl eq_refl)
               (VDict [("atk", "d4"); ("own", "d6{dexmod}")]) "d6{dexmod}"
               eq_refl eq_refl eq_refl eq_refl).
    vm_compute. reflexivity. }
  repeat split; assumption.
Defined.

(** ** Missing placeholders *)

Lemma name_char_cases (c : ascii) :
  name_char c = true ->
  Ascii.eqb c "{" = false /\ Ascii.eqb c "}" = false /\ Ascii.eqb c "[" = false
  /\ Ascii.eqb c ":" = false /\ Ascii.eqb c "!" = false
  /\ Format.is_accessor c = false.
Proof.
  unfold name_char, Format.is_accessor. intros H. apply negb_true_iff in H.
  repeat (apply orb_false_iff in H as [H ?]). repeat split; try assumption.
  apply orb_false_iff. by split.
Qed.

Lemma field_missing (kwargs : gmap string value) (name : string) :
  placeholder name -> kwargs !! name = None ->
  Format.field kwargs name = Raise (KeyError name).
Proof.
  intros (Hne & Hchars & Hdigits) Hmissing. unfold Format.field.
  assert (Hspan : Text.span (fun c => negb (Format.is_accessor c)) name = (name, EmptyString)).
  { rewrite <- (app_nil_r name) at 1. apply span_app; [| reflexivity].
    clear Hne Hdigits Hmissing. induction name as [| c name IH]; [reflexivity |].
    simpl in *. apply andb_true_iff in Hchars as [Hc Hchars].
    apply name_char_cases in Hc as (_ & _ & _ & _ & _ & ->). by rewrite IH. }
  rewrite Hspan. destruct name as [| c name]; [done |].
  simpl Text.is_empty. cbv iota. rewrite Hdigits, Hmissing. reflexivity.
Qed.

Lemma format_field_name (kwargs : gmap string value) (acc name post : string) :
  Text.all name_char name = true ->
  Format.format_from kwargs (Format.InField acc false) (name ++ String "}" post)
  = let! piece := Format.field kwargs (acc ++ name) in
    let! out := Format.format_from kwargs Format.InText post in
    Ok (piece ++ out).
Proof.
  revert acc. induction name as [| c name IH]; intros acc Hname.
  - rewrite app_nil, app_nil_r. reflexivity.
  - simpl in Hname. apply andb_true_iff in Hname as [Hc Hname].
    apply name_char_cases in Hc as (H1 & H2 & H3 & H4 & H5 & _).
    rewrite app_cons. simpl. rewrite H1, H2, H3, H4, H5. simpl.
    rewrite IH by exact Hname. by rewrite app_assoc.
Qed.

Lemma format_open (kwargs : gmap string value) (c : ascii) (r : string) :
  Ascii.eqb c "{" = false ->
  Format.format_from kwargs Format.InText (String "{" (String c r))
  = Format.format_from kwargs (Format.InField EmptyString false) (String c r).
Proof.
  intros Hc. change (Format.format_from kwargs Format.InText (String "{" (String c r)))
    with (if Ascii.eqb c "{"
          then Format.emit "{" (Format.format_from kwargs Format.InText r)
          else Format.format_from kwargs (Format.InField EmptyString false) (String c r)).
  by rewrite Hc.
Qed.


(** ** What commands keep and raise *)

Lemma keeps_bind {A B} (m : action A) (k : A -> action B) :
  keeps_engine m -> (forall a, keeps_engine (k a)) -> keeps_engine (bind m k).
Proof.
  intros Hm Hk t w. unfold bind. specialize (Hm t w).
  destruct (m t w) as [[a | e] w1]; simpl in *; [| exact Hm].
  by rewrite Hk.
Qed.

Lemma keeps_pure {A} (a : A) : keeps_engine (pure a).
Proof. by intros t w. Qed.

Lemma keeps_lift {A} (r : result A) : keeps_engine (lift r).
Proof. by intros t w. Qed.

Lemma keeps_reading {A} (method : RPGHelper -> result A) : keeps_engine (reading method).
Proof. by intros t w. Qed.

Lemma keeps_randint (a b : Z) : keeps_engine (randint a b).
Proof. intros t w. unfold randint. by destruct (b <? a). Qed.

Lemma keeps_except {A} (m : action A) (handler : string -> action A) :
  keeps_engine m -> (forall arg, keeps_engine (handler arg)) ->
  keeps_engine (except_RuntimeError m handler).
Proof.
  intros Hm Hh t w. unfold except_RuntimeError. specialize (Hm t w).
  destruct (m t w) as [[a | []] w1]; simpl in *; try exact Hm.
  by rewrite Hh.
Qed.

Lemma keeps_draw (n : nat) (sides : string) : keeps_engine (Dice.draw n sides).
Proof.
  induction n as [| n IH]; simpl; [apply keeps_pure |].
  apply keeps_bind; [apply keeps_lift |]. intros s.
  apply keeps_bind; [apply keeps_randint |]. intros x.
  apply keeps_bind; [exact IH |]. intros xs. apply keeps_pure.
Qed.

Lemma keeps_evaluate (parse : roll_match) : keeps_engine (Dice.evaluate parse).
Proof.
  unfold Dice.evaluate.
  repeat (apply keeps_bind; [first [apply keeps_lift | apply keeps_draw] | intros ?]).
  apply keeps_pure.
Qed.

Lemma keeps_roll (user character roll_command : string) :
  keeps_engine (roll user character roll_command).
Proof.
  unfold roll. destruct (DiceRegex.roll_regex _); [| apply keeps_pure].
  apply keeps_bind; [apply keeps_evaluate |]. intros o. apply keeps_pure.
Qed.

Lemma keeps_handle_roll (user roll_command : string) :
  keeps_engine (handle_roll user roll_command).
Proof.
  unfold handle_roll. apply keeps_except; [| intros arg; apply keeps_pure].
  apply keeps_bind; [apply keeps_reading |]. intros resolved. apply keeps_roll.
Qed.

Lemma only_bind {A B} (m : action A) (k : A -> action B) :
  raises_only_ValueError m -> (forall a, raises_only_ValueError (k a)) ->
  raises_only_ValueError (bind m k).
Proof.
  intros Hm Hk t w e w'. unfold bind. specialize (Hm t w).
  destruct (m t w) as [[a | e1] w1]; [apply Hk |].
  intros [= <- <-]. by eapply Hm.
Qed.

Lemma only_pure {A} (a : A) : raises_only_ValueError (pure a).
Proof. by intros t w e w'. Qed.

Lemma only_lift {A} (r : result A) :
  (forall e, r = Raise e -> e = ValueError) -> raises_only_ValueError (lift r).
Proof. intros Hr t w e w' [= H _]. by apply Hr. Qed.

Lemma only_randint (a b : Z) : raises_only_ValueError (randint a b).
Proof. intros t w e w'. unfold randint. destruct (b <? a); congruence. Qed.

Lemma int_of_str_raises (s : string) (e : exn) :
  Text.int_of_str s = Raise e -> e = ValueError.
Proof.
  unfold Text.int_of_str. destruct (Text.digits_value _ _ _); [| congruence].
  destruct (_ <? _); congruence.
Qed.

Lemma constant_values_raises (cs : list string) (e : exn) :
  Dice.constant_values cs = Raise e -> e = ValueError.
Proof.
  induction cs as [| c cs IH]; simpl; [discriminate |].
  destruct (Text.is_empty c); [exact IH |].
  destruct (Text.int_of_str (Text.remove_spaces c)) eqn:Hc; simpl.
  - destruct (Dice.constant_values cs); simpl; [discriminate |].
    intros [= <-]. by apply IH.
  - intros [= <-]. by eapply int_of_str_raises.
Qed.

Lemma only_draw (n : nat) (sides : string) : raises_only_ValueError (Dice.draw n sides).
Proof.
  induction n as [| n IH]; simpl; [apply only_pure |].
  apply only_bind; [apply only_lift, int_of_str_raises |]. intros s.
  apply only_bind; [apply only_randint |]. intros x.
  apply only_bind; [exact IH |]. intros xs. apply only_pure.
Qed.

Lemma only_roll (user character roll_command : string) :
  raises_only_ValueError (roll user character roll_command).
Proof.
  unfold roll. destruct (DiceRegex.roll_regex _) as [parse |]; [| apply only_pure].
  apply only_bind; [| intros o; apply only_pure].
  unfold Dice.evaluate.
  apply only_bind.
  { apply only_lift. unfold Dice.count. destruct (Text.is_empty _); [discriminate |].
    apply int_of_str_raises. }
  intros number. apply only_bind; [apply only_draw |]. intros rolls.
  apply only_bind; [apply only_draw |]. intros rerolls.
  apply only_bind; [apply only_lift, constant_values_raises |]. intros values.
  apply only_pure.
Qed.

(** What [handle_roll] does with each outcome of the resolution. *)
Lemma handle_roll_cases (user roll_command : string) (t : tape) (w : world) :
  match resolve_command (engine w) user roll_command with
  | Ok resolved =>
      handle_roll user roll_command t w = roll user (fst resolved) (snd resolved) t w
  | Raise (RuntimeError arg) => handle_roll user roll_command t w = (Ok arg, w)
  | Raise e => handle_roll user roll_command t w = (Raise e, w)
  end.
Proof.
  unfold handle_roll, except_RuntimeError, bind, reading.
  destruct (resolve_command (engine w) user roll_command) as [resolved | e].
  - destruct (roll user resolved.1 resolved.2 t w) as [[message | e] w'] eqn:Hroll;
      [reflexivity |].
    by rewrite (only_roll _ _ _ _ _ _ _ Hroll).
  - by destruct e.
Qed.





(** The choice of character, for a text with a first word and a user with
    a default character. *)
Lemma select_default (self : RPGHelper) (user roll_command : string)
    (owned : list string) (dflt first : string) :
  user_default self !! user = Some dflt ->
  head (Text.split roll_command) = Some first ->
  characters self !! Text.strip first = None ->
  select_character self user owned roll_command = Ok (dflt, roll_command).
Proof.
  intros Hdflt Hfirst Hnone. unfold select_character. rewrite Hdflt. simpl.
  destruct (Text.split roll_command) as [| p parts]; [discriminate |].
  injection Hfirst as ->. simpl.
  rewrite bool_decide_eq_false_2; [reflexivity |].
  rewrite Hnone. by intros [? ?].
Qed.

Lemma select_named (self : RPGHelper) (user roll_command : string)
    (owned : list string) (dflt first : string) :
  user_default self !! user = Some dflt ->
  head (Text.split roll_command) = Some first ->
  is_Some (characters self !! Text.strip first) ->
  Text.strip first ∈ owned ->
  select_character self user owned roll_command
  = Ok (Text.strip first, Text.join " " (tail (Text.split roll_command))).
Proof.
  intros Hdflt Hfirst Hknown Hown. unfold select_character. rewrite Hdflt. simpl.
  destruct (Text.split roll_command) as [| p parts]; [discriminate |].
  injection Hfirst as ->. simpl.
  rewrite bool_decide_eq_true_2 by exact Hknown.
  by rewrite bool_decide_eq_true_2 by exact Hown.
Qed.

(** A level within the range of exact division has a proficiency bonus. *)
Lemma proficiency_exists (l : Z) :
  Z.abs (l - 1) < 2 ^ 53 ->
  get_proficiency_by_level (VInt l) = Ok ("+" ++ Text.str_of_int ((l - 1) ÷ 4 + 2)).
Proof.
  intros Hl. unfold get_proficiency_by_level.
  by rewrite int_truediv_exact by lia.
Qed.

(** C10, as the code has it. The text of a user without characters comes
    back unchanged. For a user with characters and a default character,
    and a text with a first word: when that word names no character, the
    default character has an integer level [l] with [|l - 1| < 2^53] and
    the text names no macro, the text comes back unchanged, for the
    default character; when the word names a character of the user, that
    character has such a level and the other words, joined by single
    spaces, name no macro, these joined words come back, for that
    character. Resolution reads no randomness and changes nothing, so
    that the same text resolves to the same result again, also after
    other roll commands. *)
Theorem resolution_stable (self : RPGHelper) (user roll_command : string) :
  (user_to_characters self !! user = None ->
     resolve_command self user roll_command = Ok ("UNKNOWN", roll_command))
  /\ (forall owned dflt first stats l,
        user_to_characters self !! user = Some owned ->
        user_default self !! user = Some dflt ->
        head (Text.split roll_command) = Some first ->
        characters self !! Text.strip first = None ->
        characters self !! dflt = Some stats ->
        stats !! "level" = Some (VInt l) ->
        Z.abs (l - 1) < 2 ^ 53 ->
        names_no_macro self stats roll_command ->
        resolve_command self user roll_command = Ok (dflt, roll_command))
  /\ (forall owned dflt first stats l,
        user_to_characters self !! user = Some owned ->
        user_default self !! user = Some dflt ->
        head (Text.split roll_command) = Some first ->
        Text.strip first ∈ owned ->
        characters self !! Text.strip first = Some stats ->
        stats !! "level" = Some (VInt l) ->
        Z.abs (l - 1) < 2 ^ 53 ->
        names_no_macro self stats (Text.join " " (tail (Text.split roll_command))) ->
        resolve_command self user roll_command
        = Ok (Text.strip first, Text.join " " (tail (Text.split roll_command))))
  /\ (forall t w,
        reading (fun self => resolve_command self user roll_command) t w
        = (resolve_command (engine w) user roll_command, w))
  /\ (forall t w other_user other_command t',
        engine w = self ->
        fst (reading (fun self => resolve_command self user roll_command) t'
               (snd (handle_roll other_user other_command t w)))
        = resolve_command self user roll_command).
Proof.
  split; [| split; [| split; [| split]]].
  - intros Hnone. unfold resolve_command. by rewrite Hnone.
  - intros owned dflt first stats l Howned Hdflt Hfirst Hnone Hstats Hlevel Hl Hno.
    unfold resolve_command. rewrite Howned.
    rewrite (select_default _ _ _ _ _ _ Hdflt Hfirst Hnone). simpl.
    eapply resolve_macro_pass_through; eauto using proficiency_exists.
  - intros owned dflt first stats l Howned Hdflt Hfirst Hown Hstats Hlevel Hl Hno.
    unfold resolve_command. rewrite Howned.
    rewrite (select_named _ _ _ _ _ _ Hdflt Hfirst) by (by rewrite ?Hstats). simpl.
    eapply resolve_macro_pass_through; eauto using proficiency_exists.
  - reflexivity.
  - intros t w other_user other_command t' <-. unfold reading. simpl.
    by rewrite keeps_handle_roll.
Qed.

Lemma resolution_stable_witness :
  resolve_command example_helper "nobody" "atk" = Ok ("UNKNOWN", "atk")
  /\ resolve_command example_helper "u1" "d20  +1" = Ok ("bob", "d20  +1")
  /\ resolve_command example_helper "u1" "bob d20   +1" = Ok ("bob", "d20 +1").
Proof.
  split; [| split].
  - by apply (proj1 (resolution_stable example_helper "nobody" "atk")).
  - exact (proj1 (proj2 (resolution_stable example_helper "u1" "d20  +1"))
             ["bob"] "bob" "d20" example_stats 5
             eq_refl eq_refl eq_refl eq_refl eq_refl eq_refl eq_refl
             ltac:(vm_compute; split; reflexivity)).
  - exact (proj1 (proj2 (proj2 (resolution_stable example_helper "u1" "bob d20   +1")))
             ["bob"] "bob" "bob" example_stats 5
             eq_refl eq_refl eq_refl ltac:(apply list_elem_of_here)
             eq_refl eq_refl eq_refl
             ltac:(vm_compute; split; reflexivity)).
Defined.

(** C10 as stated fails: the text bob d20 names no macro, and comes back
    as d20, without the name of the character. *)
Lemma character_name_is_removed :
  names_no_macro example_helper example_stats "bob d20"
  /\ resolve_command example_helper "u1" "bob d20" = Ok ("bob", "d20")
  /\ forall character,
       resolve_command example_helper "u1" "bob d20" <> Ok (character, "bob d20").
Proof.
  assert (H : resolve_command example_helper "u1" "bob d20" = Ok ("bob", "d20"))
    by (vm_compute; reflexivity).
  split; [vm_compute; split; reflexivity |]. split; [exact H |].
  intros character. rewrite H. discriminate.
Qed.

(** * Further properties *)

(** ** What the dice pattern accepts *)

Lemma span_starts (p : ascii -> bool) (s : string) :
  Text.starts_in p (snd (Text.span p s)) = false
  /\ (Text.is_empty (fst (Text.span p s)) = negb (Text.starts_in p s)).
Proof.
  induction s as [| c s [IH1 IH2]]; [done |]. simpl.
  destruct (p c) eqn:Hc.
  - destruct (Text.span p s) as [a b]. simpl in *. auto.
  - simpl. by rewrite Hc.
Qed.

(** X1. The dice pattern looks at the start of the text only: [roll]
    answers with the unknown-command message, drawing nothing, exactly
    when the stripped text does not begin with optional digits, the letter
    d and a digit; whatever follows such a beginning, the text is parsed
    with the count and sides of that beginning. *)
Theorem roll_rejects_by_prefix (user character roll_command : string) (t : tape) (w : world) :
  (DiceRegex.roll_regex (Text.strip roll_command) = None
   <-> dice_prefix (Text.strip roll_command) = false)
  /\ (dice_prefix (Text.strip roll_command) = false ->
      roll user character roll_command t w
      = (Ok ("<@" ++ user ++ "> Unknown command: " ++ roll_command), w))
  /\ (dice_prefix (Text.strip roll_command) = true ->
      exists parse,
        DiceRegex.roll_regex (Text.strip roll_command) = Some parse
        /\ m_number parse = fst (Text.span Text.is_digit (Text.strip roll_command))
        /\ roll user character roll_command t w
           = bind (Dice.evaluate parse)
               (fun o => pure (Dice.respond user character roll_command o)) t w).
Proof.
  set (s := Text.strip roll_command).
  assert (Hparse : match DiceRegex.roll_regex s with
                   | Some parse => dice_prefix s = true
                                   /\ m_number parse = fst (Text.span Text.is_digit s)
                   | None => dice_prefix s = false
                   end).
  { unfold DiceRegex.roll_regex, dice_prefix.
    destruct (Text.span Text.is_digit s) as [number r1]. simpl.
    destruct r1 as [| c r2]; [reflexivity |].
    destruct (Ascii.eqb_spec c "d") as [-> | Hc].
    - pose proof (span_starts Text.is_digit r2) as [_ Hempty].
      destruct (Text.span Text.is_digit r2) as [sides r3]. simpl in Hempty.
      rewrite Hempty. destruct (Text.starts_in Text.is_digit r2); simpl; [| reflexivity].
      destruct (Text.span Text.re_space r3) as [ws r4].
      destruct (DiceRegex.constant_terms (String.length r4) r4) as [cs r5].
      auto.
    - destruct c as [[] [] [] [] [] [] [] []]; try reflexivity. by destruct Hc. }
  split; [| split].
  - destruct (DiceRegex.roll_regex s); [| tauto].
    destruct Hparse as [-> _]. split; discriminate.
  - intros Hprefix. unfold roll. fold s.
    destruct (DiceRegex.roll_regex s); [| reflexivity].
    destruct Hparse as [Hparse _]. congruence.
  - intros Hprefix. unfold roll. fold s.
    destruct (DiceRegex.roll_regex s) as [parse |]; [| congruence].
    exists parse. destruct Hparse as [_ Hnumber]. auto.
Qed.

Lemma roll_rejects_by_prefix_witness :
  roll "u" "bob" " attack " example_tape (World example_helper 0)
  = (Ok "<@u> Unknown command:  attack ", World example_helper 0)
  /\ exists parse, DiceRegex.roll_regex (Text.strip "12d6 and more") = Some parse
                   /\ m_number parse = "12".
Proof.
  split.
  - by apply (proj1 (proj2 (roll_rejects_by_prefix "u" "bob" " attack " example_tape
                              (World example_helper 0)))).
  - destruct (proj2 (proj2 (roll_rejects_by_prefix "u" "bob" "12d6 and more" example_tape
                              (World example_helper 0))) eq_refl)
      as (parse & Hparse & Hnumber & _).
    by exists parse.
Defined.

Lemma flag_cases (c : ascii) :
  DiceRegex.is_flag c = true -> c = "A"%char \/ c = "|"%char \/ c = "D"%char.
Proof.
  unfold DiceRegex.is_flag. intros H.
  apply orb_true_iff in H as [H | H]; [apply orb_true_iff in H as [H | H] |];
    apply Ascii.eqb_eq in H; auto.
Qed.

Lemma flag_is_plain (c : ascii) :
  DiceRegex.is_flag c = true ->
  Text.is_digit c = false /\ Text.re_space c = false /\ Text.py_space c = false
  /\ DiceRegex.is_sign c = false.
Proof. intros H. by destruct (flag_cases c H) as [-> | [-> | ->]]. Qed.

Lemma space_not_digit (c : ascii) : Text.re_space c = true -> Text.is_digit c = false.
Proof.
  intros Hc. destruct (Text.is_digit c) eqn:Hd; [| reflexivity].
  apply digit_not_re_space in Hd. congruence.
Qed.

Lemma space_not_sign (c : ascii) : Text.re_space c = true -> DiceRegex.is_sign c = false.
Proof.
  intros Hc. destruct (DiceRegex.is_sign c) eqn:Hs; [| reflexivity].
  apply sign_not_space in Hs as [Hs _]. congruence.
Qed.

Lemma re_space_py_space (c : ascii) : Text.re_space c = true -> Text.py_space c = true.
Proof. intros Hc. unfold Text.py_space. by rewrite Hc. Qed.

(** Spaces followed by a flag letter: what the text starts with. *)
Lemma spaces_flag_starts (ws : string) (c : ascii) (rest : string) :
  Text.all Text.re_space ws = true -> DiceRegex.is_flag c = true ->
  Text.starts_in Text.is_digit (ws ++ String c rest) = false
  /\ DiceRegex.constant_term (ws ++ String c rest) = None
  /\ Text.span Text.re_space (ws ++ String c rest) = (ws, String c rest).
Proof.
  intros Hws Hc. destruct (flag_is_plain c Hc) as (Hd & Hs & _ & Hsign).
  split; [| split].
  - destruct ws as [| x ws]; [exact Hd |]. simpl in *.
    apply andb_true_iff in Hws as [Hx _]. by apply space_not_digit.
  - destruct ws as [| x ws]; simpl.
    + by rewrite Hsign.
    + simpl in Hws. apply andb_true_iff in Hws as [Hx _].
      by rewrite (space_not_sign x Hx).
  - by apply span_app.
Qed.

(** X2. A flag letter that follows the dice with no constant in between is
    never recognised, with or without spaces before it: the expression is
    parsed with no flag, and every evaluation chooses the primary set. *)
Theorem flag_needs_a_constant (number sides ws : string) (c : ascii) (rest : string) :
  Text.all Text.is_digit number = true ->
  Text.all Text.is_digit sides = true -> sides <> EmptyString ->
  Text.all Text.re_space ws = true ->
  DiceRegex.is_flag c = true ->
  DiceRegex.roll_regex (number ++ String "d" (sides ++ ws ++ String c rest))
  = Some (RollMatch number sides [] None)
  /\ forall t w o w',
       Dice.evaluate (RollMatch number sides [] None) t w = (Ok o, w') ->
       o_adv o = None /\ o_true_rolls o = o_rolls o /\ o_total o = sum (o_rolls o).
Proof.
  intros Hnumber Hsides Hne Hws Hc.
  destruct (spaces_flag_starts ws c rest Hws Hc) as (Hdigit & Hterm & Hspan).
  destruct (flag_is_plain c Hc) as (_ & Hspace & _ & Hsign).
  split.
  - unfold DiceRegex.roll_regex.
    rewrite (span_app Text.is_digit number) by (exact Hnumber || reflexivity).
    rewrite (span_app Text.is_digit sides) by assumption.
    destruct sides as [| d sides]; [done |]. simpl Text.is_empty. cbv iota.
    rewrite Hspan.
    rewrite constant_terms_stop by (simpl; by rewrite Hsign).
    unfold DiceRegex.flag_group. simpl. by rewrite Hspace.
  - intros t w o w' Heval.
    apply evaluate_ok in Heval as (n & rolls & rerolls & values & w1 & _ & _ & _ & Hv & ->).
    simpl in *. injection Hv as <-.
    split; [reflexivity |]. split; [reflexivity |].
    unfold Dice.choose. simpl. by rewrite List.app_nil_r.
Qed.

Lemma flag_needs_a_constant_witness :
  DiceRegex.roll_regex "2d20 A" = Some (RollMatch "2" "20" [] None)
  /\ DiceRegex.roll_regex "d20D" = Some (RollMatch EmptyString "20" [] None).
Proof.
  split.
  - exact (proj1 (flag_needs_a_constant "2" "20" " " "A" EmptyString
                    eq_refl eq_refl ltac:(discriminate) eq_refl eq_refl)).
  - exact (proj1 (flag_needs_a_constant EmptyString "20" EmptyString "D" EmptyString
                    eq_refl eq_refl ltac:(discriminate) eq_refl eq_refl)).
Defined.

Lemma strip_spaces_flag (ws : string) (c : ascii) :
  Text.all Text.re_space ws = true -> DiceRegex.is_flag c = true ->
  Text.strip (ws ++ String c EmptyString) = String c EmptyString.
Proof.
  intros Hws Hc. destruct (flag_is_plain c Hc) as (_ & _ & Hpy & _).
  unfold Text.strip.
  assert (Text.lstrip (ws ++ String c EmptyString) = String c EmptyString) as ->.
  { induction ws as [| x ws IH]; simpl.
    - by rewrite Hpy.
    - simpl in Hws. apply andb_true_iff in Hws as [Hx Hws].
      rewrite (re_space_py_space x Hx). by apply IH. }
  simpl. by rewrite Hpy.
Qed.

(** X3. After at least one constant, spaces and a flag letter are read as
    the flag, whatever follows: the expression is parsed with all its
    constants and the flag, and evaluation runs under that letter. *)
Theorem flag_after_constants (number sides : string) (cs : list string)
    (ws : string) (c : ascii) (rest : string) :
  Text.all Text.is_digit number = true ->
  Text.all Text.is_digit sides = true -> sides <> EmptyString ->
  Forall constant_text cs -> cs <> [] ->
  Text.all Text.re_space ws = true -> ws <> EmptyString ->
  DiceRegex.is_flag c = true ->
  DiceRegex.roll_regex (number ++ String "d" (sides ++ concat cs ++ ws ++ String c rest))
  = Some (RollMatch number sides cs (Some (ws ++ String c EmptyString)))
  /\ forall t w o w',
       Dice.evaluate (RollMatch number sides cs (Some (ws ++ String c EmptyString))) t w
       = (Ok o, w') ->
       o_adv o = Some (String c EmptyString).
Proof.
  intros Hnumber Hsides Hne Hcs Hcs_ne Hws Hws_ne Hc.
  destruct (spaces_flag_starts ws c rest Hws Hc) as (Hdigit & Hterm & Hspan).
  assert (Hstart : forall p, (forall x, DiceRegex.is_sign x = true -> p x = false) ->
                             Text.starts_in p (concat cs ++ ws ++ String c rest) = false).
  { intros p Hp. destruct Hcs as [| c' cs' (sg & ws' & ds & -> & Hsg & _) _]; [done |].
    simpl. by apply Hp. }
  split.
  - unfold DiceRegex.roll_regex.
    rewrite (span_app Text.is_digit number) by (exact Hnumber || reflexivity).
    rewrite (span_app Text.is_digit sides) by (exact Hsides || apply Hstart, sign_not_digit).
    destruct sides as [| d sides]; [done |]. simpl Text.is_empty. cbv iota.
    rewrite (span_stop Text.re_space) by (apply Hstart; apply sign_not_space).
    rewrite constant_terms_concat_rest; [| exact Hcs | exact Hterm | exact Hdigit |].
    + unfold DiceRegex.flag_group. rewrite Hspan.
      destruct ws; [done |]. simpl. by rewrite Hc.
    + rewrite app_length. pose proof (concat_length cs Hcs). lia.
  - intros t w o w' Heval.
    apply evaluate_ok in Heval as (n & rolls & rerolls & values & w1 & _ & _ & _ & _ & ->).
    simpl. by rewrite strip_spaces_flag.
Qed.

Lemma flag_after_constants_witness :
  DiceRegex.roll_regex "d20+2  A trailing"
  = Some (RollMatch EmptyString "20" ["+2"] (Some "  A")).
Proof.
  assert (Hcs : Forall constant_text ["+2"]).
  { repeat constructor. exists "+"%char, EmptyString, "2". repeat split; discriminate. }
  exact (proj1 (flag_after_constants EmptyString "20" ["+2"] "  " "A" " trailing"
                  eq_refl eq_refl ltac:(discriminate) Hcs ltac:(discriminate)
                  eq_refl ltac:(discriminate) eq_refl)).
Defined.

(** ** What an evaluation draws *)

Lemma sum_bounds (l : list Z) (s : Z) :
  Forall (fun x => 1 <= x <= s) l ->
  Z.of_nat (length l) <= sum l <= Z.of_nat (length l) * s.
Proof.
  unfold sum. induction 1 as [| x l Hx _ IH]; simpl; [lia |]. nia.
Qed.

Lemma choose_either (adv : option string) (rolls rerolls : list Z) :
  Dice.choose adv rolls rerolls = rolls \/ Dice.choose adv rolls rerolls = rerolls.
Proof.
  unfold Dice.choose.
  destruct (_ && _); [by right |]. destruct (_ && _); [by right | by left].
Qed.

(** X4. Every evaluation that returns rolled as many dice as the count
    says, twice; each die of either set lies between 1 and the number of
    sides; it read exactly two raw draws per die from the random source,
    flag or no flag; and its total lies between count plus constants and
    count times sides plus constants. *)
Theorem evaluation_bounds (parse : roll_match) (n s : Z) (t : tape) (w w' : world)
    (o : outcome) :
  Dice.count (m_number parse) = Ok n -> 0 <= n ->
  Text.int_of_str (m_sides parse) = Ok s ->
  Dice.evaluate parse t w = (Ok o, w') ->
  Z.of_nat (length (o_rolls o)) = n
  /\ Z.of_nat (length (o_rerolls o)) = n
  /\ Forall (fun x => 1 <= x <= s) (o_rolls o)
  /\ Forall (fun x => 1 <= x <= s) (o_rerolls o)
  /\ w' = World (engine w) (cursor w + 2 * Z.to_nat n)
  /\ exists values,
       Dice.constant_values (m_constants parse) = Ok values
       /\ n + sum values <= o_total o <= n * s + sum values.
Proof.
  intros Hcount Hn Hsides Heval.
  apply evaluate_ok in Heval
    as (n' & rolls & rerolls & values & w1 & Hcount' & Hrolls & Hrerolls & Hvalues & ->).
  rewrite Hcount in Hcount'. injection Hcount' as <-.
  apply draw_ok in Hrolls as (Hlen1 & Hall1 & ->).
  apply draw_ok in Hrerolls as (Hlen2 & Hall2 & ->).
  specialize (Hall1 s Hsides). specialize (Hall2 s Hsides). simpl.
  split; [lia |]. split; [lia |]. split; [exact Hall1 |]. split; [exact Hall2 |].
  split; [f_equal; lia |].
  exists values. split; [exact Hvalues |]. rewrite sum_app.
  pose proof (sum_bounds rolls s Hall1) as Hb1.
  pose proof (sum_bounds rerolls s Hall2) as Hb2.
  rewrite Hlen1, Z2Nat.id in Hb1 by lia. rewrite Hlen2, Z2Nat.id in Hb2 by lia.
  destruct (choose_either (Text.strip <$> m_adv parse) rolls rerolls) as [-> | ->]; lia.
Qed.

Lemma evaluation_bounds_witness :
  exists o w',
    Dice.evaluate (RollMatch "3" "6" ["+ 3"; "-1"] (Some " A")) example_tape
      (World example_helper 0) = (Ok o, w')
    /\ cursor w' = 6%nat
    /\ Forall (fun x => 1 <= x <= 6) (o_rolls o).
Proof.
  destruct (Dice.evaluate (RollMatch "3" "6" ["+ 3"; "-1"] (Some " A")) example_tape
              (World example_helper 0)) as [[o |] w'] eqn:Heval;
    [| vm_compute in Heval; discriminate Heval].
  exists o, w'. split; [reflexivity |].
  destruct (evaluation_bounds (RollMatch "3" "6" ["+ 3"; "-1"] (Some " A")) 3 6
              example_tape (World example_helper 0) w' o
              eq_refl ltac:(lia) eq_refl Heval)
    as (_ & _ & Hrolls & _ & -> & _).
  split; [reflexivity | exact Hrolls].
Defined.

(** X5. A die without sides cannot be rolled: when the sides read as zero
    and at least one die is asked for, evaluation raises ValueError before
    reading the random source, [roll] raises it, and [handle_roll], which
    catches RuntimeError only, lets it through. With a count of zero
    nothing is drawn and the total is the sum of the constants. *)
Theorem zero_sides_raise (parse : roll_match) (n : Z) (t : tape) (w : world) :
  Dice.count (m_number parse) = Ok n ->
  Text.int_of_str (m_sides parse) = Ok 0 ->
  (1 <= n ->
   Dice.evaluate parse t w = (Raise ValueError, w)
   /\ forall user roll_command character text,
        resolve_command (engine w) user roll_command = Ok (character, text) ->
        DiceRegex.roll_regex (Text.strip text) = Some parse ->
        handle_roll user roll_command t w = (Raise ValueError, w))
  /\ (n = 0 ->
      forall values, Dice.constant_values (m_constants parse) = Ok values ->
      Dice.evaluate parse t w
      = (Ok (Outcome [] [] [] (sum values) (Text.strip <$> m_adv parse)), w)).
Proof.
  intros Hcount Hsides. split.
  - intros Hn.
    assert (Heval : Dice.evaluate parse t w = (Raise ValueError, w)).
    { unfold Dice.evaluate. unfold bind at 1. unfold lift at 1. rewrite Hcount.
      destruct (Z.to_nat n) as [| k] eqn:Hk; [lia |].
      unfold bind at 1. simpl Dice.draw. unfold bind at 1. unfold lift at 1.
      rewrite Hsides. unfold bind at 1. unfold randint. reflexivity. }
    split; [exact Heval |].
    intros user roll_command character text Hresolve Hparse.
    pose proof (handle_roll_cases user roll_command t w) as Hcases.
    rewrite Hresolve in Hcases. rewrite Hcases. simpl.
    unfold roll. rewrite Hparse. unfold bind. by rewrite Heval.
  - intros -> values Hvalues.
    unfold Dice.evaluate. unfold bind at 1. unfold lift at 1. rewrite Hcount.
    simpl. unfold bind, pure, lift. rewrite Hvalues.
    by destruct (choose_either (Text.strip <$> m_adv parse) [] []) as [-> | ->].
Qed.

Lemma zero_sides_raise_witness :
  handle_roll "u1" "2d0+1" example_tape (World example_helper 0)
  = (Raise ValueError, World example_helper 0)
  /\ Dice.evaluate (RollMatch "0" "0" ["+4"] None) example_tape (World example_helper 0)
     = (Ok (Outcome [] [] [] 4 None), World example_helper 0).
Proof.
  split.
  - apply (proj2 (proj1 (zero_sides_raise (RollMatch "2" "0" ["+1"] None) 2
                           example_tape (World example_helper 0) eq_refl eq_refl)
                    ltac:(lia)) "u1" "2d0+1" "bob" "2d0+1"); reflexivity.
  - apply (proj2 (zero_sides_raise (RollMatch "0" "0" ["+4"] None) 0
                    example_tape (World example_helper 0) eq_refl eq_refl)
             eq_refl [4]). reflexivity.
Defined.

(** ** Quotients out of range *)

Lemma round53_lower (n k : Z) :
  53 <= k -> 2 ^ k <= n -> 2 ^ k <= Float.round53 n.
Proof.
  intros Hk Hn. unfold Float.round53.
  assert (Hpos : 0 < n) by (pose proof (Z.pow_pos_nonneg 2 k); lia).
  assert (Hlog : k <= Z.log2 n) by (apply Z.log2_le_pow2; lia).
  destruct (Z.leb_spec (Z.log2 n + 1) 53) as [Hsmall | _]; [lia |].
  set (s := Z.log2 n + 1 - 53).
  assert (Hs : 0 < s) by (unfold s; lia).
  assert (Hq : 2 ^ 52 <= Z.shiftr n s).
  { rewrite Z.shiftr_div_pow2 by lia.
    apply Z.div_le_lower_bound; [apply Z.pow_pos_nonneg; lia |].
    rewrite <- Z.pow_add_r by lia.
    replace (s + 52) with (Z.log2 n) by (unfold s; lia).
    apply Z.log2_spec. lia. }
  assert (Hshift : forall q, Z.shiftr n s <= q -> 2 ^ k <= Z.shiftl q s).
  { intros q Hle. rewrite Z.shiftl_mul_pow2 by lia.
    assert (2 ^ k <= 2 ^ 52 * 2 ^ s).
    { rewrite <- Z.pow_add_r by lia. apply Z.pow_le_mono_r; unfold s; lia. }
    assert (0 < 2 ^ s) by (apply Z.pow_pos_nonneg; lia). nia. }
  destruct (_ || _); apply Hshift; lia.
Qed.

(** X6. Not every integer has a modifier or a proficiency bonus: the
    division by 2 or 4 goes through a float, and an ability value of
    magnitude [2^1025] or more, or a level whose distance to 1 is
    [2^1026] or more, raises OverflowError. *)
Theorem huge_values_overflow (v : Z) :
  (2 ^ 1025 <= Z.abs v -> Stats.get_modifier (VInt v) = Raise OverflowError)
  /\ (2 ^ 1026 <= Z.abs (v - 1) -> get_proficiency_by_level (VInt v) = Raise OverflowError)
  /\ (2 ^ 1025 <= Z.abs v ->
      forall s key, key ∈ Stats.ability_keys ->
                    Stats.setitem s key (VInt v) = Raise OverflowError).
Proof.
  assert (Hmod : 2 ^ 1025 <= Z.abs v -> Stats.get_modifier (VInt v) = Raise OverflowError).
  { intros Hv. unfold Stats.get_modifier, Stats.modifier, Float.int_truediv.
    pose proof (round53_lower (Z.abs v) 1025 ltac:(lia) Hv) as Hround.
    destruct (Z.leb_spec (2 ^ 1024 * 2) (Float.round53 (Z.abs v))) as [_ | Hlt];
      [reflexivity |].
    exfalso. change (2 ^ 1024 * 2) with (2 ^ 1025) in Hlt. lia. }
  split; [exact Hmod |]. split.
  - intros Hv. unfold get_proficiency_by_level, Float.int_truediv.
    pose proof (round53_lower (Z.abs (v - 1)) 1026 ltac:(lia) Hv) as Hround.
    destruct (Z.leb_spec (2 ^ 1024 * 4) (Float.round53 (Z.abs (v - 1)))) as [_ | Hlt];
      [reflexivity |].
    exfalso. change (2 ^ 1024 * 4) with (2 ^ 1026) in Hlt. lia.
  - intros Hv s key Hkey. unfold Stats.setitem.
    rewrite bool_decide_eq_false_2 by (by apply ability_not_mod_key).
    rewrite bool_decide_eq_true_2 by exact Hkey.
    by rewrite Hmod.
Qed.

Lemma huge_values_overflow_witness :
  Stats.get_modifier (VInt (- 2 ^ 1025)) = Raise OverflowError
  /\ get_proficiency_by_level (VInt (2 ^ 1026 + 1)) = Raise OverflowError.
Proof.
  split.
  - apply (proj1 (huge_values_overflow (- 2 ^ 1025))). vm_compute. discriminate.
  - apply (proj1 (proj2 (huge_values_overflow (2 ^ 1026 + 1)))). vm_compute. discriminate.
Defined.

(** ** Building a Stats again *)

Lemma mod_key_cases (k : string) :
  k ∈ Stats.mod_keys -> exists a, a ∈ Stats.ability_keys /\ k = a ++ "mod".
Proof.
  intros Hin. apply list_elem_of_In in Hin. simpl in Hin.
  destruct Hin as [<- | [<- | [<- | [<- | [<- | [<- | []]]]]]];
    [exists "str" | exists "dex" | exists "con" | exists "int" | exists "wis" | exists "cha"];
    (split; [apply list_elem_of_In; vm_compute; auto 10 | reflexivity]).
Qed.

(** The modifier entry a value gives, if it has a modifier. *)
Lemma setitem_lookup (acc acc' : gmap string value) (key : string) (v : value) :
  Stats.setitem acc key v = Ok acc' ->
  (forall k, k ∉ Stats.mod_keys ->
     acc' !! k = if decide (k = key) then Some v else acc !! k)
  /\ (forall a, a ∈ Stats.ability_keys ->
        acc' !! (a ++ "mod")
        = if decide (a = key)
          then match Stats.get_modifier v with Ok m => Some (VStr m) | Raise _ => None end
          else acc !! (a ++ "mod")).
Proof.
  unfold Stats.setitem. intros Hset.
  case_bool_decide as Hmod.
  - injection Hset as <-. split.
    + intros k Hk. destruct (decide (k = key)) as [-> | _]; [done | reflexivity].
    + intros a Ha. destruct (decide (a = key)) as [-> | _]; [| reflexivity].
      by apply ability_not_mod_key in Ha.
  - case_bool_decide as Hab.
    + destruct (Stats.get_modifier v) as [m |] eqn:Hm; simpl in Hset; [| discriminate].
      injection Hset as <-. split.
      * intros k Hk. destruct (decide (k = key)) as [-> | Hne].
        -- apply lookup_insert_eq.
        -- rewrite lookup_insert_ne by congruence.
           rewrite lookup_insert_ne; [reflexivity |].
           intros <-. by apply Hk, mod_key_of_ability.
      * intros a Ha. destruct (decide (a = key)) as [-> | Hne].
        -- rewrite lookup_insert_ne; [apply lookup_insert_eq |].
           intros Heq. apply Hmod. rewrite Heq. by apply mod_key_of_ability.
        -- rewrite lookup_insert_ne.
           ++ rewrite lookup_insert_ne; [reflexivity |].
              intros Heq. by apply Hne, mod_key_inj.
           ++ intros ->. by apply Hmod, mod_key_of_ability.
    + injection Hset as <-. split.
      * intros k Hk. destruct (decide (k = key)) as [-> | Hne].
        -- apply lookup_insert_eq.
        -- by rewrite lookup_insert_ne.
      * intros a Ha. destruct (decide (a = key)) as [-> | Hne]; [done |].
        rewrite lookup_insert_ne; [reflexivity |].
        intros ->. by apply Hmod, mod_key_of_ability.
Qed.

Lemma setitems_lookup (items : list (string * value)) (acc : gmap string value) :
  NoDup items.*1 ->
  (forall k v, (k, v) ∈ items -> k ∈ Stats.ability_keys ->
               exists m, Stats.get_modifier v = Ok m) ->
  exists r,
    Stats.setitems acc items = Ok r
    /\ (forall k, k ∉ Stats.mod_keys ->
          r !! k = match (list_to_map items : gmap string value) !! k with
                   | Some v => Some v
                   | None => acc !! k
                   end)
    /\ (forall a, a ∈ Stats.ability_keys ->
          r !! (a ++ "mod")
          = match (list_to_map items : gmap string value) !! a with
            | Some v => match Stats.get_modifier v with
                        | Ok m => Some (VStr m)
                        | Raise _ => None
                        end
            | None => acc !! (a ++ "mod")
            end).
Proof.
  revert acc. induction items as [| [key v] items IH]; intros acc Hnodup Hgood.
  - exists acc. split; [reflexivity |].
    split; intros; rewrite list_to_map_nil; by rewrite lookup_empty.
  - apply NoDup_cons in Hnodup as [Hfresh Hnodup]. simpl in Hfresh.
    assert (Hnone : (list_to_map items : gmap string value) !! key = None)
      by (by apply not_elem_of_list_to_map_1).
    assert (Hset : exists acc', Stats.setitem acc key v = Ok acc').
    { unfold Stats.setitem. case_bool_decide; [eauto |].
      case_bool_decide as Hab; [| eauto].
      destruct (Hgood key v) as [m ->]; [by left | exact Hab |]. simpl. eauto. }
    destruct Hset as [acc' Hset].
    destruct (IH acc' Hnodup) as (r & Hr & Hplain & Hmods).
    { intros k v' Hin. apply Hgood. by right. }
    destruct (setitem_lookup acc acc' key v Hset) as [Hplain' Hmods'].
    exists r. split; [simpl; by rewrite Hset |]. split.
    + intros k Hk. rewrite Hplain by exact Hk. simpl.
      rewrite (Hplain' k Hk).
      destruct (decide (k = key)) as [-> | Hne].
      * by rewrite Hnone, lookup_insert_eq.
      * by rewrite lookup_insert_ne.
    + intros a Ha. rewrite Hmods by exact Ha. simpl.
      rewrite (Hmods' a Ha).
      destruct (decide (a = key)) as [-> | Hne].
      * by rewrite Hnone, lookup_insert_eq.
      * by rewrite lookup_insert_ne.
Qed.

Lemma foldl_in_sync (s : gmap string value) (writes : list (string * value)) :
  in_sync s -> in_sync (foldl Stats.after_setitem s writes).
Proof.
  revert s. induction writes as [| w writes IH]; intros s Hs; simpl; [exact Hs |].
  by apply IH, after_setitem_in_sync.
Qed.

(** X7. A Stats survives being dumped and built again: from the items of a
    Stats whose modifiers are in sync, taken in any order and with the
    modifier entries among them, the constructor builds the same Stats;
    the stored modifier entries are ignored and recomputed. *)
Theorem stats_rebuilt_from_items (s : gmap string value) (items : list (string * value)) :
  in_sync s -> items ≡ₚ map_to_list s -> Stats.init items = Ok s.
Proof.
  intros Hsync Hitems.
  assert (Hmap : (list_to_map items : gmap string value) = s).
  { rewrite <- (list_to_map_to_list s). apply list_to_map_proper; [| exact Hitems].
    rewrite Hitems. apply NoDup_fst_map_to_list. }
  destruct (setitems_lookup items ∅) as (r & Hr & Hplain & Hmods).
  - rewrite Hitems. apply NoDup_fst_map_to_list.
  - intros k v Hin Hk. rewrite Hitems in Hin. apply elem_of_map_to_list in Hin.
    destruct (Hsync k Hk) as [[Hnone _] | (v' & m & Hv' & Hm & _)]; [congruence |].
    rewrite Hin in Hv'. injection Hv' as <-. eauto.
  - unfold Stats.init. rewrite Hr. f_equal. apply map_eq. intros k.
    rewrite Hmap in Hplain, Hmods.
    destruct (decide (k ∈ Stats.mod_keys)) as [Hk | Hk].
    + apply mod_key_cases in Hk as (a & Ha & ->). rewrite (Hmods a Ha).
      destruct (Hsync a Ha) as [[-> ->] | (v & m & -> & -> & ->)];
        [apply lookup_empty | reflexivity].
    + rewrite (Hplain k Hk). destruct (s !! k); [reflexivity | apply lookup_empty].
Qed.

Lemma stats_rebuilt_from_items_witness :
  Stats.init (map_to_list example_stats) = Ok example_stats.
Proof.
  apply stats_rebuilt_from_items; [| reflexivity].
  unfold example_stats. apply foldl_in_sync, in_sync_empty.
Defined.

(** X8. An ability score that is not a number stops the construction: a
    write of a text, a list or a table under an ability key raises
    TypeError and stores nothing, and no Stats is built from a mapping
    that holds such an entry. *)
Theorem stats_need_numbers (from_dict : list (string * value)) (a : string) (v : value) :
  a ∈ Stats.ability_keys -> (forall z, v <> VInt z) ->
  (forall s, Stats.setitem s a v = Raise TypeError
             /\ Stats.after_setitem s (a, v) = s)
  /\ ((a, v) ∈ from_dict -> exists e, Stats.init from_dict = Raise e).
Proof.
  intros Ha Hv.
  assert (Hset : forall s, Stats.setitem s a v = Raise TypeError).
  { intros s. unfold Stats.setitem.
    rewrite bool_decide_eq_false_2 by (by apply ability_not_mod_key).
    rewrite bool_decide_eq_true_2 by exact Ha.
    destruct v as [z | | |]; [by destruct (Hv z) | reflexivity ..]. }
  split.
  - intros s. split; [apply Hset |]. unfold Stats.after_setitem. simpl. by rewrite Hset.
  - unfold Stats.init. generalize (∅ : gmap string value).
    induction from_dict as [| [key v'] items IH]; intros acc Hin.
    + by apply elem_of_nil in Hin.
    + simpl. apply elem_of_cons in Hin as [[= <- <-] | Hin].
      * rewrite Hset. simpl. eauto.
      * destruct (Stats.setitem acc key v') as [acc' | e]; simpl; [by apply IH | eauto].
Qed.

Lemma stats_need_numbers_witness :
  exists e, Stats.init [("name", VStr "bob"); ("dex", VStr "12")] = Raise e.
Proof.
  apply (proj2 (stats_need_numbers [("name", VStr "bob"); ("dex", VStr "12")]
                  "dex" (VStr "12")
                  ltac:(apply list_elem_of_In; vm_compute; auto 10)
                  ltac:(discriminate))).
  apply list_elem_of_In. simpl. auto.
Defined.

(** ** The command and its flag *)

Lemma snoc_inj (a b : string) (x y : ascii) :
  a ++ String x EmptyString = b ++ String y EmptyString -> a = b /\ x = y.
Proof.
  revert b. induction a as [| c a IH]; intros [| d b]; rewrite ?app_cons, ?app_nil.
  - by intros [= ->].
  - intros [= -> H]. by destruct b.
  - intros [= -> H]. by destruct a.
  - intros [= -> H]. apply IH in H as [-> ->]. done.
Qed.

Lemma all_app (p : ascii -> bool) (a b : string) :
  Text.all p (a ++ b) = Text.all p a && Text.all p b.
Proof.
  induction a as [| c a IH]; [reflexivity |]. rewrite app_cons. simpl.
  by rewrite IH, andb_assoc.
Qed.

Lemma ends_in_snoc (p : ascii -> bool) (a : string) (x : ascii) :
  ends_in p (a ++ String x EmptyString) = p x.
Proof.
  induction a as [| c a IH]; [reflexivity |]. rewrite app_cons. simpl.
  rewrite IH. by destruct a.
Qed.

Lemma ends_in_cons (p : ascii -> bool) (c : ascii) (s : string) :
  ends_in p (String c s) = false -> ends_in p s = false.
Proof. by destruct s. Qed.

Lemma all_ends_in (p : ascii -> bool) (s : string) :
  s <> EmptyString -> Text.all p s = true -> ends_in p s = true.
Proof.
  induction s as [| c s IH]; [done |]. intros _ Hall. simpl in Hall.
  apply andb_true_iff in Hall as [Hc Hs]. destruct s as [| d s]; [exact Hc |].
  by apply IH.
Qed.

Lemma span_split (p : ascii -> bool) (s : string) :
  s = fst (Text.span p s) ++ snd (Text.span p s)
  /\ Text.all p (fst (Text.span p s)) = true.
Proof.
  induction s as [| c s [IH1 IH2]]; [done |]. simpl.
  destruct (p c) eqn:Hc; [| done].
  destruct (Text.span p s) as [a b]. simpl in *. rewrite Hc.
  split; [rewrite app_cons; by f_equal | done].
Qed.

Lemma at_end_cases (s : string) :
  Resolver.at_end s = true -> s = EmptyString \/ s = Text.nl.
Proof.
  unfold Resolver.at_end. intros H. apply orb_true_iff in H as [H | H].
  - left. by destruct s.
  - right. by apply String.eqb_eq.
Qed.

(** When the tail of the pattern matches at a text: the text is over, or
    it is spaces and a flag letter and then over. *)
Lemma flag_at_end_some (s : string) (adv : option string) :
  Resolver.flag_at_end s = Some adv ->
  Resolver.at_end s = true
  \/ exists ws c r, s = ws ++ String c r
                    /\ Text.all Text.re_space ws = true
                    /\ DiceRegex.is_flag c = true
                    /\ Resolver.at_end r = true.
Proof.
  unfold Resolver.flag_at_end.
  pose proof (span_split Text.re_space s) as [Hs Hws].
  destruct (Text.span Text.re_space s) as [ws r]. simpl in *.
  destruct r as [| c r'].
  - destruct (Resolver.at_end s); [auto | discriminate].
  - destruct (negb (Text.is_empty ws) && DiceRegex.is_flag c && Resolver.at_end r')
      eqn:Hflag.
    + intros _. right. exists ws, c, r'.
      apply andb_true_iff in Hflag as [Hflag Hend].
      apply andb_true_iff in Hflag as [_ Hflag]. auto.
    + destruct (Resolver.at_end s); [auto | discriminate].
Qed.

(** A text that ends in [x]: where the tail of the pattern can match. *)
Lemma flag_at_end_snoc (s : string) (x : ascii) (adv : option string) :
  not_newline x = true ->
  Resolver.flag_at_end (s ++ String x EmptyString) = Some adv ->
  DiceRegex.is_flag x = true /\ Text.all Text.re_space s = true.
Proof.
  intros Hx Hflag.
  apply flag_at_end_some in Hflag as [Hend | (ws & c & r & Heq & Hws & Hc & Hend)].
  - exfalso. apply at_end_cases in Hend as [Hend | Hend].
    + by destruct s.
    + change Text.nl with (EmptyString ++ String "010" EmptyString) in Hend.
      apply snoc_inj in Hend as [_ ->]. discriminate.
  - apply at_end_cases in Hend as [-> | ->].
    + by apply snoc_inj in Heq as [-> ->].
    + exfalso.
      change (ws ++ String c Text.nl)
        with (ws ++ String c (EmptyString ++ String "010" EmptyString)) in Heq.
      rewrite <- app_cons, <- app_assoc in Heq.
      apply snoc_inj in Heq as [_ ->]. discriminate.
Qed.

Lemma flag_not_newline (c : ascii) : DiceRegex.is_flag c = true -> not_newline c = true.
Proof. intros H. by destruct (flag_cases c H) as [-> | [-> | ->]]. Qed.

Lemma nonempty_snoc (s : string) :
  s <> EmptyString -> exists a x, s = a ++ String x EmptyString.
Proof.
  induction s as [| c s IH]; [done |]. intros _.
  destruct s as [| d s]; [by exists EmptyString, c |].
  destruct IH as (a & x & ->); [done |]. by exists (String c a), x.
Qed.

Lemma resolve_regex_unfold (s : string) :
  Resolver.resolve_regex s
  = match Resolver.flag_at_end s with
    | Some adv => Some (EmptyString, adv)
    | None =>
        match s with
        | String c r =>
            if Ascii.eqb c "010" then None
            else match Resolver.resolve_regex r with
                 | Some (command, adv) => Some (String c command, adv)
                 | None => None
                 end
        | EmptyString => None
        end
    end.
Proof. by destruct s. Qed.

Lemma resolve_regex_cons (x : ascii) (s command : string) (adv : option string) :
  Resolver.flag_at_end (String x s) = None -> not_newline x = true ->
  Resolver.resolve_regex s = Some (command, adv) ->
  Resolver.resolve_regex (String x s) = Some (String x command, adv).
Proof.
  intros Hnone Hx Hs. rewrite resolve_regex_unfold, Hnone, Hs.
  unfold not_newline in Hx. apply negb_true_iff in Hx. by rewrite Hx.
Qed.

(** X9. The pattern of the resolver splits a call into the command and
    its flag. A text without newline that does not end in a flag letter
    is its own command, with no flag; a command without newline that
    does not end in a space, followed by spaces and a flag letter, is
    split into that command and the suffix of spaces and letter. *)
Theorem resolve_regex_splits (command : string) :
  Text.all not_newline command = true ->
  (ends_in DiceRegex.is_flag command = false ->
   Resolver.resolve_regex command = Some (command, None))
  /\ (forall ws c,
        ends_in Text.re_space command = false ->
        Text.all Text.re_space ws = true -> ws <> EmptyString ->
        DiceRegex.is_flag c = true ->
        Resolver.resolve_regex (command ++ ws ++ String c EmptyString)
        = Some (command, Some (ws ++ String c EmptyString))).
Proof.
  intros Hline. split.
  - induction command as [| x command IH]; intros Hlast; [reflexivity |].
    simpl in Hline. apply andb_true_iff in Hline as [Hx Hline].
    apply resolve_regex_cons; [| exact Hx | apply IH; [exact Hline | by eapply ends_in_cons]].
    destruct (Resolver.flag_at_end (String x command)) as [adv |] eqn:Hflag;
      [| reflexivity].
    destruct (nonempty_snoc (String x command)) as (a & y & Heq); [done |].
    rewrite Heq in Hflag, Hlast. rewrite ends_in_snoc in Hlast.
    apply flag_at_end_snoc in Hflag as [Hflag _]; [congruence |].
    assert (Hall : Text.all not_newline (a ++ String y EmptyString) = true)
      by (rewrite <- Heq; simpl; by rewrite Hx, Hline).
    rewrite all_app in Hall. apply andb_true_iff in Hall as [_ Hy].
    simpl in Hy. by rewrite andb_true_r in Hy.
  - intros ws c Hlast Hws Hne Hc.
    induction command as [| x command IH].
    + rewrite app_nil, resolve_regex_unfold. unfold Resolver.flag_at_end.
      destruct (spaces_flag_starts ws c EmptyString Hws Hc) as (_ & _ & ->).
      destruct ws; [done |]. simpl. by rewrite Hc.
    + simpl in Hline. apply andb_true_iff in Hline as [Hx Hline].
      rewrite app_cons.
      apply resolve_regex_cons; [| exact Hx | apply IH; [exact Hline | by eapply ends_in_cons]].
      rewrite <- app_cons.
      destruct (Resolver.flag_at_end _) as [adv |] eqn:Hflag; [| reflexivity].
      rewrite <- app_assoc in Hflag.
      apply flag_at_end_snoc in Hflag as [_ Hall]; [| by apply flag_not_newline].
      rewrite all_app in Hall. apply andb_true_iff in Hall as [Hall _].
      apply all_ends_in in Hall; [congruence | done].
Qed.

Lemma resolve_regex_splits_witness :
  Resolver.resolve_regex "sneak attack" = Some ("sneak attack", None)
  /\ Resolver.resolve_regex "sneak attack  D" = Some ("sneak attack", Some "  D").
Proof.
  destruct (resolve_regex_splits "sneak attack" eq_refl) as [Hplain Hflag].
  split; [by apply Hplain |].
  by apply (Hflag "  " "D"%char).
Defined.

(** ** Blank commands *)

Lemma split_blank (s : string) :
  Text.all Text.py_space s = true -> Text.split s = [].
Proof.
  unfold Text.split. induction s as [| c s IH]; [reflexivity |]. simpl.
  intros H. apply andb_true_iff in H as [-> Hs]. by apply IH.
Qed.

Lemma strip_blank (s : string) :
  Text.all Text.py_space s = true -> Text.strip s = EmptyString.
Proof.
  unfold Text.strip. intros H.
  assert (Text.lstrip s = EmptyString) as ->; [| reflexivity].
  induction s as [| c s IH]; [reflexivity |]. simpl in *.
  apply andb_true_iff in H as [-> Hs]. by apply IH.
Qed.

(** X10. A roll command that is empty or all spaces: for a user without
    characters it is answered with the unknown-command message; for a
    user with characters the resolver asks for the first word of no
    words, and the IndexError (or, when the user has no default
    character, the KeyError raised just before) leaves [handle_roll]
    uncaught. *)
Theorem blank_roll_command (user roll_command : string) (t : tape) (w : world) :
  Text.all Text.py_space roll_command = true ->
  (user_to_characters (engine w) !! user = None ->
   handle_roll user roll_command t w
   = (Ok ("<@" ++ user ++ "> Unknown command: " ++ roll_command), w))
  /\ (forall owned,
        user_to_characters (engine w) !! user = Some owned ->
        handle_roll user roll_command t w
        = (Raise (match user_default (engine w) !! user with
                  | Some _ => IndexError
                  | None => KeyError user
                  end), w)).
Proof.
  intros Hblank.
  pose proof (handle_roll_cases user roll_command t w) as Hcases.
  unfold resolve_command in Hcases. split.
  - intros Hnone. rewrite Hnone in Hcases. rewrite Hcases. simpl.
    unfold roll. by rewrite strip_blank.
  - intros owned Howned. rewrite Howned in Hcases.
    unfold select_character in Hcases. rewrite split_blank in Hcases by exact Hblank.
    by destruct (user_default (engine w) !! user).
Qed.

Lemma blank_roll_command_witness :
  handle_roll "u1" "  " example_tape (World example_helper 0)
  = (Raise IndexError, World example_helper 0)
  /\ handle_roll "nobody" EmptyString example_tape (World example_helper 0)
     = (Ok "<@nobody> Unknown command: ", World example_helper 0).
Proof.
  split.
  - exact (proj2 (blank_roll_command "u1" "  " example_tape (World example_helper 0)
                    eq_refl) ["bob"] eq_refl).
  - exact (proj1 (blank_roll_command "nobody" EmptyString example_tape
                    (World example_helper 0) eq_refl) eq_refl).
Defined.

(** ** Substitution in macros *)

Lemma emit_bind (c : ascii) (r : result string) :
  Format.emit c r = let! out := r in Ok (String c out).
Proof. reflexivity. Qed.

Lemma plain_char_cases (c : ascii) :
  plain_char c = true -> Ascii.eqb c "{" = false /\ Ascii.eqb c "}" = false.
Proof.
  unfold plain_char. intros H. by apply negb_true_iff, orb_false_iff in H.
Qed.

Lemma format_plain_cons (kwargs : gmap string value) (c : ascii) (r : string) :
  plain_char c = true ->
  Format.format_from kwargs Format.InText (String c r)
  = Format.emit c (Format.format_from kwargs Format.InText r).
Proof. intros Hc. apply plain_char_cases in Hc as [H1 H2]. simpl. by rewrite H1, H2. Qed.

Lemma format_plain (kwargs : gmap string value) (template : string) :
  Text.all plain_char template = true -> Format.format template kwargs = Ok template.
Proof.
  unfold Format.format. induction template as [| c template IH]; [reflexivity |].
  simpl Text.all. intros H. apply andb_true_iff in H as [Hc Hrest].
  rewrite format_plain_cons by exact Hc. by rewrite IH.
Qed.

(** A placeholder after literal text: the field is looked up, then the
    rest of the template is formatted. *)
Lemma format_placeholder (kwargs : gmap string value) (pre name post : string) :
  Text.all plain_char pre = true -> placeholder name ->
  Format.format (pre ++ String "{" (name ++ String "}" post)) kwargs
  = let! piece := Format.field kwargs name in
    let! out := Format.format post kwargs in
    Ok (pre ++ piece ++ out).
Proof.
  intros Hpre Hname. unfold Format.format.
  induction pre as [| c pre IH].
  - rewrite app_nil. destruct Hname as (Hne & Hchars & _).
    destruct name as [| c name]; [done |].
    assert (Hc : Ascii.eqb c "{" = false).
    { simpl in Hchars. apply andb_true_iff in Hchars as [Hc _].
      by apply name_char_cases in Hc as (-> & _). }
    rewrite app_cons, format_open by exact Hc.
    rewrite <- app_cons, format_field_name by exact Hchars.
    rewrite app_nil. destruct (Format.field kwargs (String c name)); [| reflexivity].
    simpl. by destruct (Format.format_from kwargs Format.InText post).
  - simpl Text.all in Hpre. apply andb_true_iff in Hpre as [Hc Hpre].
    rewrite app_cons, format_plain_cons, IH by assumption.
    destruct (Format.field kwargs name); [| reflexivity]. simpl.
    by destruct (Format.format_from kwargs Format.InText post).
Qed.

Lemma field_present (kwargs : gmap string value) (name : string) (v : value) :
  placeholder name -> kwargs !! name = Some v ->
  Format.field kwargs name = Ok (Format.str_of_value v).
Proof.
  intros (Hne & Hchars & Hdigits) Hv. unfold Format.field.
  assert (Hspan : Text.span (fun c => negb (Format.is_accessor c)) name = (name, EmptyString)).
  { rewrite <- (app_nil_r name) at 1. apply span_app; [| reflexivity].
    clear Hne Hdigits Hv. induction name as [| c name IH]; [reflexivity |].
    simpl in *. apply andb_true_iff in Hchars as [Hc Hchars].
    apply name_char_cases in Hc as (_ & _ & _ & _ & _ & ->). by rewrite IH. }
  rewrite Hspan. destruct name as [| c name]; [done |].
  simpl Text.is_empty. cbv iota. rewrite Hdigits, Hv. reflexivity.
Qed.

(** X11. How a macro template is expanded, for stats that hold the list
    of proficient rolls and none of the three keywords: literal text
    stays, and a placeholder after literal text is replaced by the flag
    suffix of the call, the proficiency bonus, the bonus or nothing
    according to proficiency, or the stats entry of that name; a name
    that is none of these raises KeyError. A template without braces
    expands to itself, so the flag of the call is dropped. *)
Theorem macro_substitution (stats : gmap string value) (command prof : string)
    (adv : option string) (rolls : value) (proficient : bool) :
  stats !! "proficient_rolls" = Some rolls ->
  Resolver.value_contains command rolls = Ok proficient ->
  Forall (fun k => stats !! k = None) Resolver.synthetic_keys ->
  (forall template,
     Text.all plain_char template = true ->
     Resolver.expand template stats command prof adv = Ok template)
  /\ (forall pre name post,
        Text.all plain_char pre = true -> placeholder name ->
        Resolver.expand (pre ++ String "{" (name ++ String "}" post)) stats command prof adv
        = match context_value stats (if proficient then prof else EmptyString) prof adv name with
          | Some piece =>
              let! out := Resolver.expand post stats command prof adv in
              Ok (pre ++ piece ++ out)
          | None => Raise (KeyError name)
          end).
Proof.
  intros Hrolls Hproficient Hfree.
  assert (Hclash : bool_decide (Exists (fun k => is_Some (stats !! k)) Resolver.synthetic_keys)
                   = false).
  { apply bool_decide_eq_false_2. intros Hex. apply Exists_exists in Hex as (k & Hk & Hsome).
    rewrite Forall_forall in Hfree. rewrite (Hfree k Hk) in Hsome. by destruct Hsome. }
  assert (Hexpand : forall template,
            Resolver.expand template stats command prof adv
            = Format.format template
                (<["adv_or_disadv" := VStr (default EmptyString adv)]>
                   (<["proficiency" := VStr prof]>
                      (<["is_proficient" := VStr (if proficient then prof else EmptyString)]>
                         stats)))).
  { intros template. unfold Resolver.expand. rewrite Hrolls. simpl.
    rewrite Hproficient. simpl. by rewrite Hclash. }
  split.
  - intros template Hplain. rewrite Hexpand. by apply format_plain.
  - intros pre name post Hpre Hname. rewrite !Hexpand.
    rewrite format_placeholder by assumption.
    unfold context_value.
    destruct (String.eqb_spec name "adv_or_disadv") as [-> | Hadv].
    { rewrite (field_present _ _ (VStr (default EmptyString adv)));
        [reflexivity | exact Hname | apply lookup_insert_eq]. }
    destruct (String.eqb_spec name "proficiency") as [-> | Hprof].
    { rewrite (field_present _ _ (VStr prof)); [reflexivity | exact Hname |].
      rewrite lookup_insert_ne by done. apply lookup_insert_eq. }
    destruct (String.eqb_spec name "is_proficient") as [-> | Hisprof].
    { rewrite (field_present _ _ (VStr (if proficient then prof else EmptyString)));
        [reflexivity | exact Hname |].
      rewrite !lookup_insert_ne by done. apply lookup_insert_eq. }
    destruct (stats !! name) as [v |] eqn:Hv; simpl.
    + rewrite (field_present _ _ v); [reflexivity | exact Hname |].
      by rewrite !lookup_insert_ne by congruence.
    + rewrite field_missing; [reflexivity | exact Hname |].
      by rewrite !lookup_insert_ne by congruence.
Qed.

Lemma macro_substitution_witness :
  Resolver.expand "d20+5" example_stats "atk" "+3" (Some " A") = Ok "d20+5"
  /\ Resolver.expand "d20{adv_or_disadv}" example_stats "atk" "+3" (Some " A")
     = Ok "d20 A".
Proof.
  assert (Hfree : Forall (fun k => example_stats !! k = None) Resolver.synthetic_keys)
    by (repeat constructor).
  destruct (macro_substitution example_stats "atk" "+3" (Some " A") (VList ["atk"]) true
              eq_refl eq_refl Hfree) as [Hplain Hfield].
  split; [by apply Hplain |].
  pose proof (Hfield "d20" "adv_or_disadv" EmptyString eq_refl
                ltac:(repeat split; discriminate)) as H.
  rewrite (Hplain EmptyString eq_refl) in H. exact H.
Defined.
